(** * Neuroscope extractors: the res/clu codec and its file handling

    A shallow embedding of
    [spikeextractors/extractors/neuroscopeextractors/neuroscopeextractors.py].

    Integer arrays ([np.int64] arrays read by [np.loadtxt]) are lists of [Z];
    values are taken within the range where [np.int64] arithmetic on the
    cluster count does not wrap.  Python exceptions are an explicit error
    result.  The regular files of the file system are a finite map from
    paths to contents. *)

From Stdlib Require Import Ascii String.
From stdpp Require Import gmap strings pretty list sorting fin_maps.

Open Scope Z_scope.

(** ** Exceptions *)

Inductive pyerr :=
  | ValueError | IndexError | AttributeError | FileNotFoundError
  | AssertionError | TypeError.

Inductive result (A : Type) :=
  | Ok (a : A)
  | Raise (e : pyerr).
Arguments Ok {A} a.
Arguments Raise {A} e.

#[global] Instance pyerr_eq_dec : EqDecision pyerr.
Proof. solve_decision. Defined.

#[global] Instance result_eq_dec `{EqDecision A} : EqDecision (result A).
Proof. solve_decision. Defined.

#[global] Instance result_ret : MRet result := λ A a, Ok a.
#[global] Instance result_bind : MBind result := λ A B f m,
  match m with Ok a => f a | Raise e => Raise e end.
#[global] Instance result_fmap : FMap result := λ A B f m,
  match m with Ok a => Ok (f a) | Raise e => Raise e end.

(** ** The NumPy operations the module calls *)

(** [==] between arrays whose shapes do not broadcast gave the scalar [False]
    (with a deprecation warning) up to NumPy 1.24 and raises from 1.25 on.
    The module needs NumPy 1.x ([np.Inf]), so these are the two behaviours. *)
Inductive numpy_era := Legacy | Strict.

#[global] Instance numpy_era_eq_dec : EqDecision numpy_era.
Proof. solve_decision. Defined.

(** The value of a comparison: a scalar, or an array of booleans. *)
Inductive npval :=
  | NpBool (b : bool)
  | NpArr (bs : list bool).

(** [np.unique] on a one-dimensional array: the sorted distinct values. *)
Fixpoint insert_unique (x : Z) (l : list Z) : list Z :=
  match l with
  | [] => [x]
  | y :: l' =>
      if x <? y then x :: l
      else if x =? y then l
      else y :: insert_unique x l'
  end.

Definition np_unique (a : list Z) : list Z := foldr insert_unique [] a.

(** [np.arange(n)]: 0, ..., n-1, empty when n <= 0; also [range(n)]. *)
Definition np_arange (n : Z) : list Z := seqZ 0 n.

(** [a == b] on one-dimensional integer arrays, with broadcasting of a
    one-element operand. *)
Definition np_eq (era : numpy_era) (a b : list Z) : result npval :=
  match a, b with
  | [x], _ => Ok (NpArr (Z.eqb x <$> b))
  | _, [y] => Ok (NpArr ((λ x, x =? y) <$> a))
  | _, _ =>
      if decide (length a = length b) then Ok (NpArr (zip_with Z.eqb a b))
      else match era with
           | Legacy => Ok (NpBool false)
           | Strict => Raise ValueError
           end
  end.

(** The truth value [not] and [if] ask for: that of the single element of a
    one-element array, false for an empty array, an error for a longer one. *)
Definition py_truth (v : npval) : result bool :=
  match v with
  | NpBool b => Ok b
  | NpArr [] => Ok false
  | NpArr [b] => Ok b
  | NpArr _ => Raise ValueError
  end.

(** [(clu == s).nonzero()]: the positions holding [s], ascending. *)
Fixpoint nonzero_from (i : nat) (clu : list Z) (s : Z) : list nat :=
  match clu with
  | [] => []
  | c :: clu' =>
      if c =? s then i :: nonzero_from (S i) clu' s
      else nonzero_from (S i) clu' s
  end.

Definition np_nonzero_eq (clu : list Z) (s : Z) : list nat :=
  nonzero_from 0 clu s.

(** [a[idx]] for an array of positions: an out-of-range position raises. *)
Definition np_take {A} (a : list A) (idx : list nat) : result (list A) :=
  mapM (λ i, match a !! i with Some x => Ok x | None => Raise IndexError end)
       idx.

(** [np.concatenate]. *)
Definition np_concatenate {A} (ls : list (list A)) : list A := concat ls.

(** [np.repeat(v, n)]. *)
Definition np_repeat (v : Z) (n : nat) : list Z := replicate n v.

(** [x in a] for an integer array. *)
Definition np_in (x : Z) (a : list Z) : bool := bool_decide (x ∈ a).

(** [l.index(x)]: the first position of [x]. *)
Fixpoint py_index (x : Z) (l : list Z) : result nat :=
  match l with
  | [] => Raise ValueError
  | y :: l' => if y =? x then Ok 0%nat else S <$> py_index x l'
  end.

(** ** Strings and paths *)

(** [x[start:stop]] with Python's treatment of negative and out-of-range
    bounds. *)
Definition py_clip (n i : Z) : Z :=
  if i <? 0 then Z.max (i + n) 0 else Z.min i n.

Definition py_slice (x : string) (start stop : Z) : string :=
  let n := Z.of_nat (String.length x) in
  let a := py_clip n start in
  let b := py_clip n stop in
  String.substring (Z.to_nat a) (Z.to_nat (b - a)) x.

(** [x[start:]]. *)
Definition py_slice_from (x : string) (start : Z) : string :=
  py_slice x start (Z.of_nat (String.length x)).

Definition slash : ascii := "/"%char.

Fixpoint drop_while {A} (p : A → bool) (l : list A) : list A :=
  match l with
  | [] => []
  | x :: l' => if p x then drop_while p l' else l
  end.

Fixpoint take_while {A} (p : A → bool) (l : list A) : list A :=
  match l with
  | [] => []
  | x :: l' => if p x then x :: take_while p l' else []
  end.

Definition is_slash (c : ascii) : bool := bool_decide (c = slash).

(** [os.path.split]: the tail follows the last slash; the head loses its
    trailing slashes unless it consists of slashes only. *)
Definition os_path_split (p : string) : string * string :=
  let r := reverse (list_ascii_of_string p) in
  let tail := reverse (take_while (λ c, negb (is_slash c)) r) in
  let head_r := drop_while (λ c, negb (is_slash c)) r in
  let stripped := drop_while is_slash head_r in
  let head := match stripped with [] => head_r | _ => stripped end in
  (string_of_list_ascii (reverse head), string_of_list_ascii tail).

(** ["{}/{}<ext>".format(folder, name)]. *)
Definition path_in (folder name ext : string) : string :=
  folder +:+ "/" +:+ name +:+ ext.

Fixpoint strip_prefix (pre s : string) : option string :=
  match pre with
  | EmptyString => Some s
  | String a pre' =>
      match s with
      | String b s' => if bool_decide (a = b) then strip_prefix pre' s' else None
      | EmptyString => None
      end
  end.

Fixpoint has_slash (s : string) : bool :=
  match s with
  | EmptyString => false
  | String a s' => is_slash a || has_slash s'
  end.

(** [os.path.join(a, b)] for two components. *)
Definition os_path_join (a b : string) : string :=
  match b with
  | String c _ =>
      if is_slash c then b
      else match reverse (list_ascii_of_string a) with
           | [] => a +:+ b
           | d :: _ => if is_slash d then a +:+ b else a +:+ "/" +:+ b
           end
  | EmptyString =>
      match reverse (list_ascii_of_string a) with
      | [] => a +:+ b
      | d :: _ => if is_slash d then a +:+ b else a +:+ "/" +:+ b
      end
  end.

(** The white space [int] and [float] drop around ASCII text: tab, line
    feed, vertical tab, form feed, carriage return and space. *)
Definition py_isspace (c : ascii) : bool :=
  let n := nat_of_ascii c in
  ((9 <=? n) && (n <=? 13) || (n =? 32))%nat.

(** The digits of [int(s)] after the sign: decimal digits, with single
    underscores allowed between two digits. *)
Fixpoint py_int_digits (acc : Z) (after_digit : bool) (s : list ascii)
    : option Z :=
  match s with
  | [] => if after_digit then Some acc else None
  | c :: s' =>
      match Ascii.is_nat c with
      | Some d => py_int_digits (10 * acc + Z.of_nat d) true s'
      | None =>
          if bool_decide (c = "_"%char) && after_digit
          then match s' with
               | [] => None
               | _ => py_int_digits acc false s'
               end
          else None
      end
  end.

(** [int(s)] for ASCII text: surrounding white space is dropped, one sign is
    allowed, anything else than decimal digits raises ValueError. *)
Definition py_int (s : string) : result Z :=
  let cs := drop_while py_isspace (list_ascii_of_string s) in
  let cs := reverse (drop_while py_isspace (reverse cs)) in
  let '(sign, ds) :=
    match cs with
    | c :: r =>
        if bool_decide (c = "-"%char) then (-1, r)
        else if bool_decide (c = "+"%char) then (1, r)
        else (1, cs)
    | [] => (1, cs)
    end in
  match py_int_digits 0 false ds with
  | Some n => Ok (sign * n)
  | None => Raise ValueError
  end.

Definition is_digit (c : ascii) : bool :=
  match Ascii.is_nat c with Some _ => true | None => false end.

Definition is_sign (c : ascii) : bool :=
  bool_decide (c = "+"%char) || bool_decide (c = "-"%char).

(** [str.lower] on an ASCII character. *)
Definition py_lower (c : ascii) : ascii :=
  let n := nat_of_ascii c in
  if ((65 <=? n) && (n <=? 90))%nat then ascii_of_nat (n + 32) else c.

(** What follows the digits and single underscores that continue a run of
    digits; an underscore counts only between two digits. *)
Fixpoint skip_digits (s : list ascii) : list ascii :=
  match s with
  | c :: s' =>
      if is_digit c then skip_digits s'
      else if bool_decide (c = "_"%char) then
        match s' with
        | d :: s'' => if is_digit d then skip_digits s'' else s
        | [] => s
        end
      else s
  | [] => []
  end.

(** What follows a run of digits at the head of [s], if there is one. *)
Definition digitpart (s : list ascii) : option (list ascii) :=
  match s with
  | c :: s' => if is_digit c then Some (skip_digits s') else None
  | [] => None
  end.

(** What follows a mantissa: digits with an optional point and fraction, or
    a point and a fraction. *)
Definition float_number (s : list ascii) : option (list ascii) :=
  match digitpart s with
  | Some r =>
      match r with
      | c :: r' =>
          if bool_decide (c = "."%char) then Some (default r' (digitpart r'))
          else Some r
      | [] => Some r
      end
  | None =>
      match s with
      | c :: r' => if bool_decide (c = "."%char) then digitpart r' else None
      | [] => None
      end
  end.

(** What follows an exponent: e or E, an optional sign, digits. *)
Definition float_exponent (s : list ascii) : option (list ascii) :=
  match s with
  | c :: r =>
      if bool_decide (c = "e"%char) || bool_decide (c = "E"%char) then
        match r with
        | g :: r' => if is_sign g then digitpart r' else digitpart r
        | [] => None
        end
      else None
  | [] => None
  end.

(** The ASCII texts [float(s)] accepts: surrounding white space is dropped,
    one sign is allowed, then inf, infinity or nan in any case, or a decimal
    number with an optional exponent. *)
Definition py_float_ok (text : string) : bool :=
  let cs := drop_while py_isspace (list_ascii_of_string text) in
  let cs := reverse (drop_while py_isspace (reverse cs)) in
  let abs := match cs with
             | c :: r => if is_sign c then r else cs
             | [] => cs
             end in
  let word := string_of_list_ascii (py_lower <$> abs) in
  bool_decide (word = "inf") || bool_decide (word = "infinity")
  || bool_decide (word = "nan")
  || match float_number abs with
     | Some [] => true
     | Some r => match float_exponent r with Some [] => true | _ => false end
     | None => false
     end.

(** ** Files *)

(** A float is carried as the text it was parsed from or is printed as; its
    value is not interpreted. *)
Definition pyfloat : Type := string.

(** [float(s)] on a string: ValueError unless [s] is a float literal. *)
Definition py_float (text : string) : result pyfloat :=
  if py_float_ok text then Ok text else Raise ValueError.

(** [f(tag.string)] for [f] one of [int] and [float]: a tag without text
    has [.string] None, on which both raise TypeError. *)
Definition of_tag_string {A} (f : string → result A) (text : string)
    : result A :=
  if bool_decide (text = "") then Raise TypeError else f text.

Inductive file :=
  | TextInts (rows : list Z)               (* one integer per line *)
  | XmlDoc (tags : list (string * string)) (* tag name, text *)
  | DatFile (dtype : string).              (* raw samples *)

#[global] Instance file_eq_dec : EqDecision file.
Proof. solve_decision. Defined.

(** The regular files, by path.  Paths are compared literally. *)
Abbreviation filesystem := (gmap string file).

(** [os.path.isfile]. *)
Definition isfile (fs : filesystem) (p : string) : bool :=
  bool_decide (is_Some (fs !! p)).

(** [[f for f in listdir(folder) if isfile(join(folder, f))]]; the order of
    [listdir] is arbitrary and is that of the map's enumeration here. *)
Definition onlyfiles (fs : filesystem) (folder_path : string) : list string :=
  omap (λ p, f ← strip_prefix (folder_path +:+ "/") p;
             if has_slash f then None else Some f)
       (map_to_list fs).*1.

(** [np.loadtxt(path, dtype=np.int64, usecols=0, ndmin=1)]. *)
Definition np_loadtxt (fs : filesystem) (p : string) : result (list Z) :=
  match fs !! p with
  | None => Raise FileNotFoundError
  | Some (TextInts rows) => Ok rows
  | Some _ => Raise ValueError
  end.

(** [np.savetxt(path, a, fmt='%i')]. *)
Definition np_savetxt (p : string) (a : list Z) (fs : filesystem) : filesystem :=
  <[p := TextInts a]> fs.

Fixpoint xml_find (tag : string) (tags : list (string * string)) : option string :=
  match tags with
  | [] => None
  | (t, s) :: tags' => if bool_decide (t = tag) then Some s else xml_find tag tags'
  end.

(** The [with open(xml_filepath) ...] block and
    [float(soup.samplingrate.string)]. *)
Definition read_samplingrate (fs : filesystem) (xml_filepath : string) : result pyfloat :=
  match fs !! xml_filepath with
  | None => Raise FileNotFoundError
  | Some (XmlDoc tags) =>
      match xml_find "samplingrate" tags with
      | Some s => of_tag_string py_float s
      | None => Raise AttributeError
      end
  | Some _ => Raise AttributeError
  end.

(** ** The extractor interface that the writers consume

    [write_sorting] is a static method over any sorting extractor: it calls
    [get_unit_ids], [get_unit_spike_train(u)] and [get_sampling_frequency]
    only. *)
Record SortingExtractor := {
  sorting_get_unit_ids : result (list Z);
  sorting_get_unit_spike_train : Z → result (list Z);
  (* what [str(sorting.get_sampling_frequency())] prints: any text, since
     a sorting need not have a sampling frequency *)
  sorting_get_sampling_frequency : string
}.

(** [write_recording] calls [get_dtype], [get_channel_ids] and
    [get_sampling_frequency]; the last is abstract in the base class and
    returns a float, which [str] prints as a float literal. *)
Record RecordingExtractor := {
  recording_get_dtype : string;
  recording_get_channel_ids : list Z;
  recording_get_sampling_frequency : pyfloat;
  recording_sampling_frequency_float :
    py_float_ok recording_get_sampling_frequency = true
}.

(** ** NeuroscopeRecordingExtractor *)

Module NeuroscopeRecordingExtractor.

(** The block under [if not os.path.isfile(save_xml)] of
    [write_recording]; it also rebinds [dtype]. *)
Definition write_parameters (recording : RecordingExtractor)
    (save_xml dtype : string) (fs : filesystem) : filesystem * string :=
  if negb (isfile fs save_xml) then
    let dtype := recording_get_dtype recording in
    let dtype :=
      if negb (bool_decide (dtype = "int16") || bool_decide (dtype = "int32"))
      then "int32" else dtype in
    let n_bits := py_slice dtype 3 5 in
    let soup :=
      [("nbits", n_bits);
       ("nchannels",
        pretty (Z.of_nat (length (recording_get_channel_ids recording))));
       ("samplingrate", recording_get_sampling_frequency recording)] in
    (<[save_xml := XmlDoc soup]> fs, dtype)
  else (fs, dtype).

(** [write_recording]; [bindat_write_recording] stands for
    [BinDatRecordingExtractor.write_recording], which is not part of this
    module. *)
Definition write_recording
    (bindat_write_recording :
       RecordingExtractor → string → string → filesystem → filesystem)
    (recording : RecordingExtractor) (save_path dtype : string)
    (fs : filesystem) : filesystem :=
  let RECORDING_NAME := (os_path_split save_path).2 in
  let save_xml := path_in save_path RECORDING_NAME ".xml" in
  let recording_fn := save_path +:+ "/" +:+ RECORDING_NAME in
  let '(fs, dtype) := write_parameters recording save_xml dtype fs in
  bindat_write_recording recording recording_fn dtype fs.

(** [soup.<tag>.string]: a tag that is not there gives [None], whose
    [.string] raises AttributeError. *)
Definition tag_string (tag : string) (soup : list (string * string))
    : result string :=
  match xml_find tag soup with
  | Some text => Ok text
  | None => Raise AttributeError
  end.

(** What [__init__] hands to [BinDatRecordingExtractor.__init__], which is
    not part of this module. *)
Record bindat_args := {
  dat_filepath : string;
  sampling_frequency : pyfloat;
  dtype : string;
  numchan : Z
}.

(** [__init__], lines 39-65. *)
Definition init (fs : filesystem) (folder_path : string)
    (subset_channels : option (list Z)) : result bindat_args :=
  let fname := (os_path_split folder_path).2 in
  let xml_filepath := os_path_join folder_path (fname +:+ ".xml") in
  let dat_filepath := os_path_join folder_path (fname +:+ ".dat") in
  match fs !! xml_filepath with
  | None => Raise FileNotFoundError
  | Some f =>
      let soup := match f with XmlDoc tags => tags | _ => [] end in
      nbits ← tag_string "nbits" soup;
      n_bits ← of_tag_string py_int nbits;
      let dtype := "int" +:+ pretty n_bits in
      nchannels ← tag_string "nchannels" soup;
      num_channels ← of_tag_string py_int nchannels;
      let num_channels :=
        match subset_channels with
        | Some l => Z.of_nat (length l)
        | None => num_channels
        end in
      samplingrate ← tag_string "samplingrate" soup;
      sampling_frequency ← of_tag_string py_float samplingrate;
      mret {| dat_filepath := dat_filepath;
              sampling_frequency := sampling_frequency;
              dtype := dtype;
              numchan := num_channels |}
  end.

End NeuroscopeRecordingExtractor.

(** ** NeuroscopeSortingExtractor *)

Module NeuroscopeSortingExtractor.

(** The instance attributes.  [SortingExtractor.__init__] sets neither
    [_unit_ids] nor [_spiketrains]; an attribute this module has not
    assigned is absent. *)
Record t := {
  _sampling_frequency : pyfloat;
  _unit_ids : option (list Z);
  _spiketrains : option (list (list Z))
}.

Definition getattr {A} (a : option A) : result A :=
  match a with Some x => Ok x | None => Raise AttributeError end.

(** Lines 195-199: the adjustment of the declared cluster count. *)
Definition adjust_n_clu (era : numpy_era) (n_clu : Z) (unique_ids : list Z)
    : result Z :=
  c ← np_eq era unique_ids (np_arange (n_clu + 1));
  t ← py_truth c;
  mret (if negb t then
          let n_clu := if negb (np_in 0 unique_ids) then n_clu + 1 else n_clu in
          let n_clu := if negb (np_in 1 unique_ids) then n_clu + 1 else n_clu in
          n_clu
        else n_clu).

(** Lines 203-215: the unit ids and their spike trains. *)
Definition select_units (keep_mua_units : bool) (n_clu : Z) (res clu : list Z)
    : result (list Z * list (list Z)) :=
  if keep_mua_units then
    let n_clu := n_clu - 1 in
    let unit_ids := (λ x, x + 1) <$> np_arange n_clu in
    spiketrains ← mapM (λ s_id, np_take res (np_nonzero_eq clu s_id)) unit_ids;
    mret (unit_ids, spiketrains)
  else
    let n_clu := n_clu - 2 in
    let unit_ids := (λ x, x + 1) <$> np_arange n_clu in
    spiketrains ←
      mapM (λ s_id, np_take res (np_nonzero_eq clu (s_id + 1))) unit_ids;
    mret (unit_ids, spiketrains).

(** Lines 187-215 on the two loaded arrays.  With an empty [res] nothing is
    assigned: the [else] that would assign the empty lists (line 236)
    belongs to the outer [if]. *)
Definition read_pair (era : numpy_era) (keep_mua_units : bool)
    (sampling_frequency : pyfloat) (res clu : list Z) : result t :=
  if decide (0 < length res)%nat then
    match clu with
    | [] => Raise IndexError
    | n_clu :: clu =>
        let unique_ids := np_unique clu in
        n_clu ← adjust_n_clu era n_clu unique_ids;
        '(unit_ids, spiketrains) ← select_units keep_mua_units n_clu res clu;
        mret {| _sampling_frequency := sampling_frequency;
                _unit_ids := Some unit_ids;
                _spiketrains := Some spiketrains |}
    end
  else
    mret {| _sampling_frequency := sampling_frequency;
            _unit_ids := None;
            _spiketrains := None |}.

(** [__init__] called with both [resfile_path] and [clufile_path]. *)
Definition init_pair (era : numpy_era) (fs : filesystem)
    (resfile_path clufile_path : string) (keep_mua_units : bool) : result t :=
  let folder_path := (os_path_split resfile_path).1 in
  let SORTING_NAME := (os_path_split folder_path).2 in
  let xml_filepath := path_in folder_path SORTING_NAME ".xml" in
  sf ← read_samplingrate fs xml_filepath;
  res ← np_loadtxt fs resfile_path;
  clu ← np_loadtxt fs clufile_path;
  read_pair era keep_mua_units sf res clu.

(** [__init__]. *)
Definition init (era : numpy_era) (fs : filesystem)
    (resfile_path clufile_path folder_path : option string)
    (keep_mua_units : bool) : result t :=
  match resfile_path, clufile_path, folder_path with
  | None, None, None => Raise AssertionError
  | Some r, Some c, _ => init_pair era fs r c keep_mua_units
  | Some _, None, _ | None, Some _, _ => Raise AssertionError
  | None, None, Some folder_path =>
      let SORTING_NAME := (os_path_split folder_path).2 in
      let xml_filepath := path_in folder_path SORTING_NAME ".xml" in
      _ ← read_samplingrate fs xml_filepath;
      let files := onlyfiles fs folder_path in
      let any_res := existsb (λ x, bool_decide (py_slice_from x (-3) = "res")) files in
      let any_clu := existsb (λ x, bool_decide (py_slice_from x (-3) = "clu")) files in
      if any_res || any_clu then
        if any_res && any_clu then
          init_pair era fs (path_in folder_path SORTING_NAME ".res")
                    (path_in folder_path SORTING_NAME ".clu") keep_mua_units
        else Raise AssertionError
      else Raise TypeError (* Path(None) when building _kwargs *)
  end.

Definition get_unit_ids (self : t) : result (list Z) :=
  getattr (_unit_ids self).

Definition get_sampling_frequency (self : t) : pyfloat :=
  _sampling_frequency self.

Definition shift_unit_ids (self : t) (shift : Z) : result t :=
  ids ← getattr (_unit_ids self);
  mret {| _sampling_frequency := _sampling_frequency self;
          _unit_ids := Some ((λ x, x + shift) <$> ids);
          _spiketrains := _spiketrains self |}.

Definition add_unit (self : t) (unit_id : Z) (spike_times : list Z) : result t :=
  ids ← getattr (_unit_ids self);
  sts ← getattr (_spiketrains self);
  mret {| _sampling_frequency := _sampling_frequency self;
          _unit_ids := Some (ids ++ [unit_id]);
          _spiketrains := Some (sts ++ [spike_times]) |}.

(** [(start_frame <= times) & (times < end_frame)], [None] standing for
    [np.Inf]. *)
Definition in_frames (start_frame : Z) (end_frame : option Z) (x : Z) : Prop :=
  start_frame ≤ x ∧ match end_frame with Some e => x < e | None => True end.

#[global] Instance in_frames_dec s e x : Decision (in_frames s e x).
Proof. unfold in_frames. destruct e; apply _. Defined.

(** [get_unit_spike_train]; a frame bound left at [None] is 0 for the start
    and infinity for the end.  The decorator [check_valid_unit_id] and
    [_cast_start_end_frame] belong to the base package: they pass integer
    and [None] arguments through and reject a unit id that is not listed,
    as [index] does. *)
Definition get_unit_spike_train (self : t) (unit_id : Z)
    (start_frame end_frame : option Z) : result (list Z) :=
  let start_frame := default 0 start_frame in
  sts ← getattr (_spiketrains self);
  ids ← get_unit_ids self;
  i ← py_index unit_id ids;
  times ← match sts !! i with Some st => Ok st | None => Raise IndexError end;
  mret (filter (in_frames start_frame end_frame) times).

(** The object as seen through the extractor interface. *)
Definition as_sorting (self : t) : SortingExtractor :=
  {| sorting_get_unit_ids := get_unit_ids self;
     sorting_get_unit_spike_train := λ u, get_unit_spike_train self u None None;
     sorting_get_sampling_frequency := get_sampling_frequency self |}.

(** Lines 291-306 of [write_sorting]: the two arrays handed to
    [np.savetxt].  [argsort] is [np.argsort] with its default kind. *)
Definition write_arrays (argsort : list Z → list nat)
    (sorting : SortingExtractor) : result (list Z * list Z) :=
  unit_ids ← sorting_get_unit_ids sorting;
  '(res, clu) ←
    (if decide (0 < length unit_ids)%nat then
       spiketrains ← mapM (sorting_get_unit_spike_train sorting) unit_ids;
       let res := np_concatenate spiketrains in
       let clu :=
         np_concatenate
           (imap (λ i st, np_repeat (Z.of_nat i + 1) (length st)) spiketrains) in
       let res_sort := argsort res in
       res ← np_take res res_sort;
       clu ← np_take clu res_sort;
       mret (res, clu)
     else mret ([], []));
  let unique_ids := np_unique clu in
  let n_clu := Z.of_nat (length unique_ids) in
  let clu := n_clu :: clu in
  mret (res, clu).

Definition write_sorting (argsort : list Z → list nat)
    (sorting : SortingExtractor) (save_path : string) (fs : filesystem)
    : result filesystem :=
  let SORTING_NAME := (os_path_split save_path).2 in
  let save_xml := path_in save_path SORTING_NAME ".xml" in
  let save_res := path_in save_path SORTING_NAME ".res" in
  let save_clu := path_in save_path SORTING_NAME ".clu" in
  '(res, clu) ← write_arrays argsort sorting;
  let fs := np_savetxt save_res res fs in
  let fs := np_savetxt save_clu clu fs in
  mret (if negb (isfile fs save_xml) then
          <[save_xml :=
              XmlDoc [("samplingrate", sorting_get_sampling_frequency sorting)]]> fs
        else fs).

End NeuroscopeSortingExtractor.

(** ** NeuroscopeMultiSortingExtractor *)

Module NeuroscopeMultiSortingExtractor.

(** The list of per-shank extractors handed to
    [MultiSortingExtractor.__init__], and the [exclude_shanks] entry of
    [_kwargs], the only place the argument goes. *)
Record t := {
  _sampling_frequency : pyfloat;
  sortings : list NeuroscopeSortingExtractor.t;
  _kwargs_exclude_shanks : option (list Z)
}.

(** [[x[-1] for x in onlyfiles if x[-5:-2] == kind and x[-10:-6] != 'temp']];
    the condition makes [x] at least five characters long, so [x[-1]] is
    its last character. *)
Definition shank_ids (kind : string) (files : list string) : list string :=
  (λ x, py_slice_from x (-1)) <$>
    filter (λ x, py_slice x (-5) (-2) = kind ∧ py_slice x (-10) (-6) ≠ "temp")
           files.

(** The [(resfile_path, clufile_path)] pairs the loop of lines 392-398
    builds an extractor from, in order. *)
Definition shank_paths (folder_path : string) (shank_res_ids : list string)
    : list (string * string) :=
  let SORTING_NAME := (os_path_split folder_path).2 in
  (λ shank_id,
     (path_in folder_path SORTING_NAME ".res." +:+ shank_id,
      path_in folder_path SORTING_NAME ".clu." +:+ shank_id)) <$> shank_res_ids.

(** [__init__]. *)
Definition init (era : numpy_era) (fs : filesystem) (folder_path : string)
    (keep_mua_units : bool) (exclude_shanks : option (list Z)) : result t :=
  let SORTING_NAME := (os_path_split folder_path).2 in
  let xml_filepath := path_in folder_path SORTING_NAME ".xml" in
  sf ← read_samplingrate fs xml_filepath;
  let files := onlyfiles fs folder_path in
  let any_res := existsb (λ x, bool_decide (py_slice_from x (-3) = "res")) files in
  let any_clu := existsb (λ x, bool_decide (py_slice_from x (-3) = "clu")) files in
  if negb (negb any_res && negb any_clu) then Raise AssertionError
  else
    let shank_res_ids := shank_ids "res" files in
    let shank_clu_ids := shank_ids "clu" files in
    if negb (bool_decide (shank_res_ids = shank_clu_ids)) then Raise AssertionError
    else
      all_shanks_list_se ←
        mapM (λ '(resfile_path, clufile_path),
                NeuroscopeSortingExtractor.init era fs (Some resfile_path)
                  (Some clufile_path) None keep_mua_units)
             (shank_paths folder_path shank_res_ids);
      mret {| _sampling_frequency := sf;
              sortings := all_shanks_list_se;
              _kwargs_exclude_shanks := exclude_shanks |}.

(** [write_sorting], lines 408-447. *)
Definition write_sorting (argsort : list Z → list nat)
    (sorting : SortingExtractor) (save_path : string) (fs : filesystem)
    : result filesystem :=
  let SORTING_NAME := (os_path_split save_path).2 in
  let save_xml := path_in save_path SORTING_NAME ".xml" in
  let save_res := path_in save_path SORTING_NAME ".res" in
  let save_clu := path_in save_path SORTING_NAME ".clu" in
  unit_ids ← sorting_get_unit_ids sorting;
  '(res, clu) ←
    (if decide (0 < length unit_ids)%nat then
       spiketrains ← mapM (sorting_get_unit_spike_train sorting) unit_ids;
       let res := np_concatenate spiketrains in
       let clu :=
         np_concatenate
           (imap (λ i st, np_repeat (Z.of_nat i + 1) (length st)) spiketrains) in
       let res_sort := argsort res in
       res ← np_take res res_sort;
       clu ← np_take clu res_sort;
       mret (res, clu)
     else mret ([], []));
  let unique_ids := np_unique clu in
  let n_clu := Z.of_nat (length unique_ids) in
  let clu := n_clu :: clu in
  let fs := np_savetxt save_res res fs in
  let fs := np_savetxt save_clu clu fs in
  mret (if negb (isfile fs save_xml) then
          <[save_xml :=
              XmlDoc [("samplingrate", sorting_get_sampling_frequency sorting)]]> fs
        else fs).

End NeuroscopeMultiSortingExtractor.

(** ** Two sorts meeting the contract of [np.argsort]

    [np.argsort(a)] returns a permutation of the positions of [a] along which
    [a] is ascending.  Its default kind, quicksort, is documented as not
    stable, so the order it gives to positions of equal value is not fixed by
    the call the module makes. *)

Definition key_at (a : list Z) (i : nat) : Z := default 0 (a !! i).

Fixpoint insert_by (a : list Z) (i : nat) (p : list nat) : list nat :=
  match p with
  | [] => [i]
  | j :: p' =>
      if key_at a i <=? key_at a j then i :: p
      else j :: insert_by a i p'
  end.

Definition sort_positions (a : list Z) (p : list nat) : list nat :=
  foldr (insert_by a) [] p.

(** Positions of equal value stay in ascending order. *)
Definition argsort_stable (a : list Z) : list nat :=
  sort_positions a (seq 0 (length a)).

(** Positions of equal value come out in descending order. *)
Definition argsort_reversing (a : list Z) : list nat :=
  sort_positions a (reverse (seq 0 (length a))).

(** What the module relies on from [np.argsort]. *)
Definition argsort_contract (argsort : list Z → list nat) : Prop :=
  ∀ a, argsort a ≡ₚ seq 0 (length a) ∧
       Sorted Z.le (key_at a <$> argsort a).

(** A stable sort in addition keeps the positions of each value ascending. *)
Definition argsort_is_stable (argsort : list Z → list nat) : Prop :=
  ∀ a t, StronglySorted lt (filter (λ i, key_at a i = t) (argsort a)).

(** ** Reference notions used in the statements *)

(** The subsequence of [res] whose positionally aligned [clu] entry is [k],
    in file order. *)
Definition aligned_spikes (res clu : list Z) (k : Z) : list Z :=
  (filter (λ p, p.2 = k) (zip res clu)).*1.

(** The source cluster ids kept for a cluster count [n] (after adjustment). *)
Definition retained (keep_mua_units : bool) (n k : Z) : Prop :=
  (if keep_mua_units then 1 else 2) ≤ k < n.

#[global] Instance retained_dec keep n k : Decision (retained keep n k).
Proof. unfold retained. apply _. Defined.

(** Unit ids are exactly 1, ..., n for some n. *)
Definition contiguous_from_1 (ids : list Z) : Prop :=
  ids = seqZ 1 (Z.of_nat (length ids)).

(** The labelled spikes [write_sorting] starts from: the train at position
    [i] carries label [i+1]. *)
Definition labelled_spikes (spiketrains : list (list Z)) : list (Z * Z) :=
  concat (imap (λ i st, (λ x, (x, Z.of_nat i + 1)) <$> st) spiketrains).

(** What a successful selection returns, for either setting. *)
Definition selected (keep_mua_units : bool) (n : Z) (res clu : list Z)
    : list Z * list (list Z) :=
  if keep_mua_units
  then (seqZ 1 (n - 1), aligned_spikes res clu <$> seqZ 1 (n - 1))
  else (seqZ 1 (n - 2), (λ j, aligned_spikes res clu (j + 1)) <$> seqZ 1 (n - 2)).

(** The labels [write_sorting] concatenates, before sorting. *)
Definition labels_of (spiketrains : list (list Z)) : list Z :=
  np_concatenate
    (imap (λ i st, np_repeat (Z.of_nat i + 1) (length st)) spiketrains).

(** The files a call of [write_sorting] leaves, given the arrays it
    computed. *)
Definition written (sorting : SortingExtractor) (save_path : string)
    (res clu : list Z) (fs : filesystem) : filesystem :=
  let SORTING_NAME := (os_path_split save_path).2 in
  let save_xml := path_in save_path SORTING_NAME ".xml" in
  let fs := np_savetxt (path_in save_path SORTING_NAME ".res") res fs in
  let fs := np_savetxt (path_in save_path SORTING_NAME ".clu") clu fs in
  if negb (isfile fs save_xml) then
    <[save_xml :=
        XmlDoc [("samplingrate", sorting_get_sampling_frequency sorting)]]> fs
  else fs.

(** A folder with the sidecar and two shanks. *)
Definition two_shanks : filesystem :=
  {[ "d/rec/rec.xml" := XmlDoc [("samplingrate", "30000")];
     "d/rec/rec.res.1" := TextInts [10; 20; 30; 40];
     "d/rec/rec.clu.1" := TextInts [3; 0; 1; 2; 1];
     "d/rec/rec.res.2" := TextInts [15; 25; 35; 45];
     "d/rec/rec.clu.2" := TextInts [3; 0; 1; 2; 2] ]}.

(** The two attribute lists are assigned and of one length, so that the
    train at a position belongs to the id at that position. *)
Definition aligned (self : NeuroscopeSortingExtractor.t) : Prop :=
  ∃ ids sts,
    NeuroscopeSortingExtractor._unit_ids self = Some ids ∧
    NeuroscopeSortingExtractor._spiketrains self = Some sts ∧
    length sts = length ids.

(** A folder path that is not empty and does not end in a slash. *)
Definition plain_folder (p : string) : bool :=
  match reverse (list_ascii_of_string p) with
  | c :: _ => negb (is_slash c)
  | [] => false
  end.

(** * Properties *)

(** ** The error monad *)

Lemma bind_Ok {A B} (f : A → result B) (a : A) : (Ok a ≫= f) = f a.
Proof. reflexivity. Qed.

Lemma mapM_cons {A B} (f : A → result B) (x : A) (l : list A) :
  mapM f (x :: l) = y ← f x; k ← mapM f l; mret (y :: k).
Proof. reflexivity. Qed.

Lemma mapM_Ok {A B} (f : A → result B) (g : A → B) (l : list A) :
  (∀ x, x ∈ l → f x = Ok (g x)) → mapM f l = Ok (g <$> l).
Proof.
  induction l as [|x l IH]; intros Hf; simpl; [done|].
  rewrite (Hf x) by left. simpl.
  rewrite IH; [done|]. intros y Hy. apply Hf. by right.
Qed.

Lemma mapM_Raise {A B} (f : A → result B) (e : pyerr) (l : list A) :
  (∀ x, x ∈ l → f x = Raise e ∨ ∃ y, f x = Ok y) →
  (∃ x, x ∈ l ∧ f x = Raise e) →
  mapM f l = Raise e.
Proof.
  induction l as [|x l IH]; intros Hall [y [Hy Hr]].
  - by apply elem_of_nil in Hy.
  - simpl. destruct (Hall x) as [Hx|[b Hx]]; [by left| |]; rewrite Hx; simpl.
    + done.
    + rewrite IH; [done| |].
      * intros z Hz. apply Hall. by right.
      * apply elem_of_cons in Hy as [->|Hy]; [congruence|eauto].
Qed.

(** ** Indexing by the positions of a label *)

Lemma nonzero_from_shift (clu : list Z) (s : Z) (i : nat) :
  nonzero_from (S i) clu s = S <$> nonzero_from i clu s.
Proof.
  revert i. induction clu as [|c clu IH]; intros i; simpl; [done|].
  destruct (c =? s); simpl; by rewrite IH.
Qed.

Lemma np_take_shift {A} (a : list A) (idx : list nat) :
  np_take a (S <$> idx) = np_take (drop 1 a) idx.
Proof.
  unfold np_take. induction idx as [|i idx IH]; [done|].
  rewrite fmap_cons, !mapM_cons, IH. by rewrite lookup_drop.
Qed.

Lemma np_take_cons {A} (a : list A) (i : nat) (idx : list nat) :
  np_take a (i :: idx) =
  y ← match a !! i with Some x => Ok x | None => Raise IndexError end;
  k ← np_take a idx; mret (y :: k).
Proof. reflexivity. Qed.

Lemma aligned_spikes_cons (r c : Z) (res clu : list Z) (k : Z) :
  aligned_spikes (r :: res) (c :: clu) k =
  if decide (c = k) then r :: aligned_spikes res clu k else aligned_spikes res clu k.
Proof.
  unfold aligned_spikes. simpl. rewrite filter_cons. simpl.
  by destruct (decide (c = k)).
Qed.

Lemma np_take_nonzero_ok (clu res : list Z) (s : Z) :
  (∀ i, clu !! i = Some s → (i < length res)%nat) →
  np_take res (np_nonzero_eq clu s) = Ok (aligned_spikes res clu s).
Proof.
  unfold np_nonzero_eq. revert res.
  induction clu as [|c clu IH]; intros res Hin; simpl.
  - by destruct res.
  - rewrite nonzero_from_shift.
    destruct res as [|r res].
    + destruct (Z.eqb_spec c s) as [->|Hne].
      * specialize (Hin 0%nat eq_refl). simpl in Hin. lia.
      * rewrite np_take_shift. simpl. rewrite IH; [done|].
        intros i Hi. specialize (Hin (S i) Hi). simpl in Hin. lia.
    + rewrite aligned_spikes_cons.
      assert (np_take res (nonzero_from 0 clu s) = Ok (aligned_spikes res clu s)) as Htl.
      { apply IH. intros i Hi. specialize (Hin (S i) Hi). simpl in Hin. lia. }
      destruct (Z.eqb_spec c s) as [->|Hne].
      * rewrite decide_True by done.
        rewrite np_take_cons, np_take_shift. simpl. rewrite drop_0, Htl. done.
      * rewrite decide_False by done.
        rewrite np_take_shift. simpl. by rewrite drop_0.
Qed.

Lemma np_take_nonzero_raise (clu res : list Z) (s : Z) :
  (∃ i, clu !! i = Some s ∧ (length res ≤ i)%nat) →
  np_take res (np_nonzero_eq clu s) = Raise IndexError.
Proof.
  unfold np_nonzero_eq. revert res.
  induction clu as [|c clu IH]; intros res [i [Hi Hle]]; [done|].
  simpl. rewrite nonzero_from_shift.
  assert (Hstep : ∀ j, clu !! j = Some s → (length res ≤ S j)%nat →
            np_take res (S <$> nonzero_from 0 clu s) = Raise IndexError).
  { intros j Hj Hlen. rewrite np_take_shift. apply IH. exists j. split; [done|].
    rewrite length_drop. lia. }
  destruct (Z.eqb_spec c s) as [->|Hne].
  - rewrite np_take_cons.
    destruct i as [|j].
    + destruct res; [done|simpl in Hle; lia].
    + destruct (res !! 0%nat); [|done]. simpl.
      by rewrite (Hstep j Hi Hle).
  - destruct i as [|j]; [simpl in Hi; congruence|].
    by apply (Hstep j).
Qed.

Lemma np_take_nonzero_cases (clu res : list Z) (s : Z) :
  np_take res (np_nonzero_eq clu s) = Raise IndexError ∨
  np_take res (np_nonzero_eq clu s) = Ok (aligned_spikes res clu s).
Proof.
  destruct (decide (Exists (λ i, clu !! i = Some s ∧ (length res ≤ i)%nat)
                           (seq 0 (length clu)))) as [Hex|Hno].
  - left. apply np_take_nonzero_raise.
    apply Exists_exists in Hex as [i [_ Hi]]. eauto.
  - right. apply np_take_nonzero_ok. intros i Hi.
    destruct (decide (i < length res)%nat); [done|].
    exfalso. apply Hno, Exists_exists. exists i. split; [|split; [done|lia]].
    apply elem_of_seq. apply lookup_lt_Some in Hi. lia.
Qed.

(** ** Unit selection (lines 203-215) *)

Import NeuroscopeSortingExtractor.

Lemma unit_ids_seqZ (n : Z) : (λ x, x + 1) <$> np_arange n = seqZ 1 n.
Proof.
  unfold np_arange. change (seqZ 1 n) with (seqZ (1 + 0) n).
  rewrite <- (fmap_add_seqZ 1 0 n).
  apply list_fmap_ext. intros _ x _. lia.
Qed.

Lemma select_units_keep (n : Z) (res clu : list Z) :
  select_units true n res clu =
  spiketrains ← mapM (λ s_id, np_take res (np_nonzero_eq clu s_id)) (seqZ 1 (n - 1));
  mret (seqZ 1 (n - 1), spiketrains).
Proof. unfold select_units. by rewrite unit_ids_seqZ. Qed.

Lemma select_units_drop (n : Z) (res clu : list Z) :
  select_units false n res clu =
  spiketrains ←
    mapM (λ s_id, np_take res (np_nonzero_eq clu (s_id + 1))) (seqZ 1 (n - 2));
  mret (seqZ 1 (n - 2), spiketrains).
Proof. unfold select_units. by rewrite unit_ids_seqZ. Qed.

Lemma select_units_ok (keep : bool) (n : Z) (res clu : list Z) :
  (∀ i s, clu !! i = Some s → retained keep n s → (i < length res)%nat) →
  select_units keep n res clu = Ok (selected keep n res clu).
Proof.
  intros Hin. destruct keep; unfold selected.
  - rewrite select_units_keep.
    rewrite (mapM_Ok _ (aligned_spikes res clu)); [done|].
    intros s Hs. apply elem_of_seqZ in Hs.
    apply np_take_nonzero_ok. intros i Hi. apply (Hin i s Hi).
    unfold retained. lia.
  - rewrite select_units_drop.
    rewrite (mapM_Ok _ (λ j, aligned_spikes res clu (j + 1))); [done|].
    intros s Hs. apply elem_of_seqZ in Hs.
    apply np_take_nonzero_ok. intros i Hi. apply (Hin i (s + 1) Hi).
    unfold retained. lia.
Qed.

Lemma select_units_raise (keep : bool) (n : Z) (res clu : list Z) :
  (∃ i s, clu !! i = Some s ∧ retained keep n s ∧ (length res ≤ i)%nat) →
  select_units keep n res clu = Raise IndexError.
Proof.
  intros (i & s & Hi & Hret & Hle). unfold retained in Hret.
  destruct keep.
  - rewrite select_units_keep. rewrite (mapM_Raise _ IndexError); [done| |].
    + intros x _. destruct (np_take_nonzero_cases clu res x); eauto.
    + exists s. split; [apply elem_of_seqZ; lia|].
      apply np_take_nonzero_raise. eauto.
  - rewrite select_units_drop. rewrite (mapM_Raise _ IndexError); [done| |].
    + intros x _. destruct (np_take_nonzero_cases clu res (x + 1)); eauto.
    + exists (s - 1). split; [apply elem_of_seqZ; lia|].
      apply np_take_nonzero_raise. exists i. split; [|done].
      by replace (s - 1 + 1) with s by lia.
Qed.

Lemma select_units_cases (keep : bool) (n : Z) (res clu : list Z) :
  (select_units keep n res clu = Raise IndexError ∧
   ∃ i s, clu !! i = Some s ∧ retained keep n s ∧ (length res ≤ i)%nat) ∨
  (select_units keep n res clu = Ok (selected keep n res clu) ∧
   ∀ i s, clu !! i = Some s → retained keep n s → (i < length res)%nat).
Proof.
  pose (P := λ i : nat, match clu !! i with
                        | Some s => retained keep n s ∧ (length res ≤ i)%nat
                        | None => False
                        end).
  assert (∀ i, Decision (P i)) as Hdec
    by (intros i; unfold P; destruct (clu !! i); apply _).
  destruct (decide (Exists P (seq 0 (length clu)))) as [Hex|Hno]; unfold P in *.
  - left. apply Exists_exists in Hex as (i & _ & Hi).
    destruct (clu !! i) as [s|] eqn:Hs; [|done]. destruct Hi.
    split; [apply select_units_raise|]; eauto 6.
  - right.
    assert (∀ i s, clu !! i = Some s → retained keep n s → (i < length res)%nat)
      as Hin.
    { intros i s Hi Hret. destruct (decide (i < length res)%nat); [done|].
      exfalso. apply Hno, Exists_exists. exists i. split.
      - apply elem_of_seq. apply lookup_lt_Some in Hi. lia.
      - rewrite Hi. split; [done|lia]. }
    split; [by apply select_units_ok|done].
Qed.

(** ** The cluster-count adjustment (lines 195-199) *)

(** Two arrays of the same length, at least two, compare to an array whose
    truth value is ambiguous. *)
Lemma adjust_n_clu_same_length (era : numpy_era) (n_clu : Z) (unique_ids : list Z) :
  length unique_ids = length (np_arange (n_clu + 1)) →
  (2 ≤ length unique_ids)%nat →
  adjust_n_clu era n_clu unique_ids = Raise ValueError.
Proof.
  intros Hlen Hge. unfold adjust_n_clu.
  destruct unique_ids as [|x [|y u]]; simpl in Hge; try lia.
  destruct (np_arange (n_clu + 1)) as [|a [|b r]]; simpl in Hlen; try lia.
  unfold np_eq. rewrite decide_True by (simpl; lia). done.
Qed.

(** The ids are exactly 0, ..., n_clu with n_clu at least 1: the comparison
    cannot be used as a condition. *)
Lemma adjust_n_clu_full_range (era : numpy_era) (n_clu : Z) :
  1 ≤ n_clu →
  adjust_n_clu era n_clu (np_arange (n_clu + 1)) = Raise ValueError.
Proof.
  intros Hn. apply adjust_n_clu_same_length; [done|].
  unfold np_arange. rewrite length_seqZ. lia.
Qed.

(** A single distinct id against a declared count of at least 1 is broadcast
    to an array of at least two entries. *)
Lemma adjust_n_clu_single_id (era : numpy_era) (n_clu x : Z) :
  1 ≤ n_clu →
  adjust_n_clu era n_clu [x] = Raise ValueError.
Proof.
  intros Hn. unfold adjust_n_clu, np_eq, np_arange.
  rewrite (seqZ_cons 0) by lia. rewrite (seqZ_cons (Z.succ 0)) by lia. done.
Qed.

(** Under the legacy comparison, arrays of different lengths, neither of
    length one, compare to [False]: the count is raised by one for each of
    the ids 0 and 1 that is absent. *)
Lemma adjust_n_clu_legacy (n_clu : Z) (unique_ids : list Z) :
  length unique_ids ≠ length (np_arange (n_clu + 1)) →
  length unique_ids ≠ 1%nat →
  n_clu ≠ 0 →
  adjust_n_clu Legacy n_clu unique_ids =
  Ok (n_clu + (if np_in 0 unique_ids then 0 else 1)
            + (if np_in 1 unique_ids then 0 else 1)).
Proof.
  intros Hlen H1 Hn. unfold adjust_n_clu.
  assert (length (np_arange (n_clu + 1)) ≠ 1%nat) as Hb.
  { unfold np_arange. rewrite length_seqZ. lia. }
  assert (np_eq Legacy unique_ids (np_arange (n_clu + 1)) = Ok (NpBool false)) as ->.
  { unfold np_eq. destruct unique_ids as [|x [|y u]]; [|done|].
    - destruct (np_arange (n_clu + 1)) as [|a [|b r]]; [done|done|].
      by rewrite decide_False.
    - destruct (np_arange (n_clu + 1)) as [|a [|b r]]; [|done|].
      + by rewrite decide_False.
      + by rewrite decide_False. }
  simpl. f_equal. destruct (np_in 0 unique_ids), (np_in 1 unique_ids); simpl; lia.
Qed.

(** C1: the declared count is to be left unchanged when the ids present are
    exactly 0..n_clu and raised by one per absent id 0 and 1 otherwise.  On
    a clu file declaring 2 with ids 0, 1, 2 (the full range), and on one
    declaring 1 with the single id 1 (0 absent), the condition of line 195
    raises ValueError instead, under either comparison rule. *)
Theorem C1_adjustment_raises (era : numpy_era) (keep : bool) (sf : pyfloat) :
  adjust_n_clu era 2 (np_unique [0; 1; 2]) = Raise ValueError ∧
  read_pair era keep sf [10; 20; 30] [2; 0; 1; 2] = Raise ValueError ∧
  adjust_n_clu era 1 (np_unique [1; 1]) = Raise ValueError ∧
  read_pair era keep sf [10; 20] [1; 1; 1] = Raise ValueError.
Proof. by destruct era, keep. Qed.

(** ** Reading a pair (lines 187-215) *)

Lemma read_pair_nonempty (era : numpy_era) (keep : bool) (sf : pyfloat)
    (res : list Z) (n_clu : Z) (clu : list Z) :
  res ≠ [] →
  read_pair era keep sf res (n_clu :: clu) =
  n ← adjust_n_clu era n_clu (np_unique clu);
  '(unit_ids, spiketrains) ← select_units keep n res clu;
  mret {| _sampling_frequency := sf; _unit_ids := Some unit_ids;
          _spiketrains := Some spiketrains |}.
Proof.
  intros Hres. unfold read_pair. rewrite decide_True; [done|].
  destruct res; [done|simpl; lia].
Qed.

(** C2 (as amended): after the adjustment to n, and with every clu entry
    aligned to a res entry, keep_mua_units=true keeps source clusters
    1..n-1 as units 1..n-1, unit k holding the res values aligned with k in
    file order; keep_mua_units=false keeps source clusters 2..n-1 as units
    1..n-2, source cluster k becoming unit k-1; for n at least 2 the false
    setting yields exactly one unit fewer than the true setting. *)
Theorem C2_unit_selection (era : numpy_era) (sf : pyfloat) (res : list Z)
    (n_clu : Z) (clu : list Z) (n : Z) :
  res ≠ [] →
  (length clu ≤ length res)%nat →
  adjust_n_clu era n_clu (np_unique clu) = Ok n →
  read_pair era true sf res (n_clu :: clu) =
    Ok {| _sampling_frequency := sf;
          _unit_ids := Some (seqZ 1 (n - 1));
          _spiketrains := Some (aligned_spikes res clu <$> seqZ 1 (n - 1)) |} ∧
  read_pair era false sf res (n_clu :: clu) =
    Ok {| _sampling_frequency := sf;
          _unit_ids := Some (seqZ 1 (n - 2));
          _spiketrains :=
            Some ((λ j, aligned_spikes res clu (j + 1)) <$> seqZ 1 (n - 2)) |} ∧
  (2 ≤ n → length (seqZ 1 (n - 1)) = S (length (seqZ 1 (n - 2)))) ∧
  (n < 2 → seqZ 1 (n - 1) = [] ∧ seqZ 1 (n - 2) = []).
Proof.
  intros Hres Hlen Hadj.
  assert (∀ keep, select_units keep n res clu = Ok (selected keep n res clu)) as Hsel.
  { intros keep. apply select_units_ok. intros i s Hi _.
    apply lookup_lt_Some in Hi. lia. }
  repeat split.
  - rewrite read_pair_nonempty, Hadj by done. by rewrite bind_Ok, Hsel.
  - rewrite read_pair_nonempty, Hadj by done. by rewrite bind_Ok, Hsel.
  - intros Hn. rewrite !length_seqZ. lia.
  - apply seqZ_nil. lia.
  - apply seqZ_nil. lia.
Qed.

Lemma C2_unit_selection_witness :
  read_pair Legacy true "30000" [10; 20; 30; 40] [3; 0; 1; 2; 1] =
    Ok {| _sampling_frequency := "30000";
          _unit_ids := Some [1; 2];
          _spiketrains := Some [[20; 40]; [30]] |} ∧
  read_pair Legacy false "30000" [10; 20; 30; 40] [3; 0; 1; 2; 1] =
    Ok {| _sampling_frequency := "30000";
          _unit_ids := Some [1];
          _spiketrains := Some [[30]] |}.
Proof.
  destruct (C2_unit_selection Legacy "30000" [10; 20; 30; 40] 3 [0; 1; 2; 1] 3)
    as (Ht & Hf & _); [done|simpl; lia|reflexivity|].
  split; [exact Ht|exact Hf].
Defined.

(** C2 as stated fails: on the files of scenario A the true setting keeps
    two source clusters and the false setting one, which is one fewer and
    not two. *)
Lemma C2_two_fewer_counterexample :
  ∃ ids_true ids_false : list Z,
    _unit_ids <$> read_pair Legacy true "30000" [10; 20; 30; 40] [3; 0; 1; 2; 1]
      = Ok (Some ids_true) ∧
    _unit_ids <$> read_pair Legacy false "30000" [10; 20; 30; 40] [3; 0; 1; 2; 1]
      = Ok (Some ids_false) ∧
    Z.of_nat (length ids_false) ≠ Z.of_nat (length ids_true) - 2.
Proof. exists [1; 2], [1]. by repeat split. Qed.

(** ** Unequal lengths of res and clu *)

(** C5 (as amended): the lengths of res and of the clu body are never
    compared.  Once the count adjustment has succeeded, reading fails, with
    IndexError, exactly when the clu body holds a retained cluster id at a
    position at or beyond the length of res; otherwise it returns the units
    built from the aligned entries, whatever the two lengths are. *)
Theorem C5_no_length_check (era : numpy_era) (keep : bool) (sf : pyfloat)
    (res : list Z) (n_clu : Z) (clu : list Z) (n : Z) :
  res ≠ [] →
  adjust_n_clu era n_clu (np_unique clu) = Ok n →
  (read_pair era keep sf res (n_clu :: clu) = Raise IndexError ∧
   ∃ i s, clu !! i = Some s ∧ retained keep n s ∧ (length res ≤ i)%nat) ∨
  (read_pair era keep sf res (n_clu :: clu) =
     Ok {| _sampling_frequency := sf;
           _unit_ids := Some (selected keep n res clu).1;
           _spiketrains := Some (selected keep n res clu).2 |} ∧
   ∀ i s, clu !! i = Some s → retained keep n s → (i < length res)%nat).
Proof.
  intros Hres Hadj. rewrite read_pair_nonempty, Hadj, bind_Ok by done.
  destruct (select_units_cases keep n res clu) as [[-> Hex]|[-> Hall]].
  - by left.
  - right. split; [|done]. by destruct (selected keep n res clu).
Qed.

Lemma C5_no_length_check_witness :
  read_pair Legacy true "30000" [10; 20; 30; 40; 50] [3; 0; 1; 2; 1] =
    Ok {| _sampling_frequency := "30000";
          _unit_ids := Some [1; 2];
          _spiketrains := Some [[20; 40]; [30]] |}.
Proof.
  destruct (C5_no_length_check Legacy true "30000" [10; 20; 30; 40; 50] 3
              [0; 1; 2; 1] 3) as [[Hr _]|[Hok _]];
    [done|reflexivity|discriminate Hr|exact Hok].
Defined.

(** A clu body shorter than res is always read without an index error. *)
Lemma read_pair_short_clu (era : numpy_era) (keep : bool) (sf : pyfloat)
    (res : list Z) (n_clu : Z) (clu : list Z) (n : Z) :
  res ≠ [] →
  (length clu < length res)%nat →
  adjust_n_clu era n_clu (np_unique clu) = Ok n →
  read_pair era keep sf res (n_clu :: clu) =
    Ok {| _sampling_frequency := sf;
          _unit_ids := Some (selected keep n res clu).1;
          _spiketrains := Some (selected keep n res clu).2 |}.
Proof.
  intros Hres Hlen Hadj. rewrite read_pair_nonempty, Hadj, bind_Ok by done.
  rewrite select_units_ok.
  - by destruct (selected keep n res clu).
  - intros i s Hi _. apply lookup_lt_Some in Hi. lia.
Qed.

(** C5 as stated fails: a res file of two rows with a clu file of a header
    and one row (lengths 2 and 1) is read without any error, under either
    comparison rule; so is, under the legacy rule, a five-row res with the
    four-row clu body of scenario A. *)
Lemma C5_mismatch_counterexample :
  length [10; 20] ≠ length [2] ∧
  read_pair Legacy true "30000" [10; 20] [0; 2] =
    Ok {| _sampling_frequency := "30000"; _unit_ids := Some [1];
          _spiketrains := Some [[]] |} ∧
  read_pair Strict true "30000" [10; 20] [0; 2] =
    Ok {| _sampling_frequency := "30000"; _unit_ids := Some [1];
          _spiketrains := Some [[]] |} ∧
  read_pair Legacy true "30000" [10; 20; 30; 40; 50] [3; 0; 1; 2; 1] =
    Ok {| _sampling_frequency := "30000"; _unit_ids := Some [1; 2];
          _spiketrains := Some [[20; 40]; [30]] |}.
Proof. by repeat split. Qed.

(** ** Unit ids *)

Lemma contiguous_seqZ (n : Z) : contiguous_from_1 (seqZ 1 n).
Proof.
  unfold contiguous_from_1. rewrite length_seqZ.
  destruct (decide (0 ≤ n)).
  - by rewrite Z2Nat.id.
  - rewrite (seqZ_nil 1 n) by lia. rewrite seqZ_nil; [done|lia].
Qed.

Lemma read_pair_unit_ids (era : numpy_era) (keep : bool) (sf : pyfloat)
    (res clu : list Z) (self : t) :
  res ≠ [] →
  read_pair era keep sf res clu = Ok self →
  ∃ ids sts, _unit_ids self = Some ids ∧ _spiketrains self = Some sts ∧
             contiguous_from_1 ids ∧ length sts = length ids.
Proof.
  intros Hres. destruct clu as [|n_clu clu].
  { unfold read_pair. rewrite decide_True by (destruct res; [done|simpl; lia]).
    done. }
  rewrite read_pair_nonempty by done.
  destruct (adjust_n_clu era n_clu (np_unique clu)) as [n|]; [|done].
  rewrite bind_Ok.
  destruct (select_units_cases keep n res clu) as [[-> _]|[-> _]]; [done|].
  destruct keep; unfold selected; rewrite bind_Ok; intros [= <-]; simpl;
    eexists _, _;
    (split; [done|split; [done|split; [apply contiguous_seqZ|]]]);
    by rewrite length_fmap.
Qed.

Lemma add_unit_contiguous (ids : list Z) (unit_id : Z) :
  contiguous_from_1 ids →
  contiguous_from_1 (ids ++ [unit_id]) ↔ unit_id = Z.of_nat (length ids) + 1.
Proof.
  unfold contiguous_from_1. intros Hids.
  rewrite length_app. simpl.
  replace (length ids + 1)%nat with (S (length ids)) by lia.
  rewrite seqZ_S, <- Hids. split.
  - intros H. apply app_inv_head in H. injection H. lia.
  - intros ->. do 2 f_equal. lia.
Qed.

Lemma shift_seqZ (shift n : Z) :
  (λ x, x + shift) <$> seqZ 1 n = seqZ (1 + shift) n.
Proof.
  rewrite (Z.add_comm 1 shift), <- fmap_add_seqZ.
  apply list_fmap_ext. intros _ x _. lia.
Qed.

Lemma shift_contiguous (ids : list Z) (shift : Z) :
  contiguous_from_1 ids →
  contiguous_from_1 ((λ x, x + shift) <$> ids) ↔ shift = 0 ∨ ids = [].
Proof.
  unfold contiguous_from_1. intros Hids. rewrite length_fmap.
  destruct ids as [|x ids']; [naive_solver|].
  rewrite Hids at 1. rewrite shift_seqZ.
  rewrite !(seqZ_cons _ (Z.of_nat (length (x :: ids')))) by (simpl; lia).
  split.
  - intros [= H _]. left. lia.
  - intros [->|?]; [|done]. by rewrite Z.add_0_r.
Qed.

(** C10 (as amended): a successful construction from a non-empty res leaves
    unit ids 1..n; add_unit(u, ...) keeps that form exactly when u = n+1;
    shift_unit_ids(s) turns the ids into s+1..s+n, which is 1..n exactly
    when s = 0 or there is no unit. *)
Theorem C10_unit_id_range (era : numpy_era) (keep : bool) (sf : pyfloat)
    (res clu : list Z) (self : t) :
  res ≠ [] →
  read_pair era keep sf res clu = Ok self →
  ∃ ids,
    get_unit_ids self = Ok ids ∧ contiguous_from_1 ids ∧
    (∀ unit_id spike_times, ∃ self',
        add_unit self unit_id spike_times = Ok self' ∧
        get_unit_ids self' = Ok (ids ++ [unit_id]) ∧
        (contiguous_from_1 (ids ++ [unit_id]) ↔
         unit_id = Z.of_nat (length ids) + 1)) ∧
    (∀ shift, ∃ self',
        shift_unit_ids self shift = Ok self' ∧
        get_unit_ids self' = Ok (seqZ (1 + shift) (Z.of_nat (length ids))) ∧
        (contiguous_from_1 (seqZ (1 + shift) (Z.of_nat (length ids))) ↔
         shift = 0 ∨ ids = [])).
Proof.
  intros Hres Hread.
  destruct (read_pair_unit_ids era keep sf res clu self Hres Hread)
    as (ids & sts & Hids & Hsts & Hc & _).
  exists ids. split; [unfold get_unit_ids; by rewrite Hids|].
  split; [done|]. split.
  - intros unit_id spike_times. unfold add_unit. rewrite Hids, Hsts.
    eexists. split; [done|]. split; [done|]. by apply add_unit_contiguous.
  - intros shift. unfold shift_unit_ids. rewrite Hids.
    assert ((λ x, x + shift) <$> ids = seqZ (1 + shift) (Z.of_nat (length ids)))
      as Heq by (rewrite (Hc : ids = _) at 1; apply shift_seqZ).
    eexists. split; [done|]. unfold get_unit_ids. simpl. rewrite Heq.
    split; [done|]. rewrite <- Heq. by apply shift_contiguous.
Qed.

Lemma C10_unit_id_range_witness :
  ∃ self ids,
    read_pair Legacy true "30000" [10; 20; 30; 40] [3; 0; 1; 2; 1] = Ok self ∧
    get_unit_ids self = Ok ids ∧ contiguous_from_1 ids.
Proof.
  eexists _.
  destruct (C10_unit_id_range Legacy true "30000" [10; 20; 30; 40]
              [3; 0; 1; 2; 1] _ ltac:(done) eq_refl) as (ids & Hids & Hc & _).
  exists ids. split; [reflexivity|]. split; [exact Hids|exact Hc].
Defined.

(** C10 as stated fails: on the extractor read from scenario A, whose unit
    ids are 1, 2, shift_unit_ids(1) gives 2, 3 and add_unit(7, ...) gives
    1, 2, 7; neither is a range starting at 1. *)
Lemma C10_invariant_counterexample :
  ∃ self shifted added,
    read_pair Legacy true "30000" [10; 20; 30; 40] [3; 0; 1; 2; 1] = Ok self ∧
    get_unit_ids self = Ok [1; 2] ∧
    shift_unit_ids self 1 = Ok shifted ∧
    get_unit_ids shifted = Ok [2; 3] ∧ ¬ contiguous_from_1 [2; 3] ∧
    add_unit self 7 [5] = Ok added ∧
    get_unit_ids added = Ok [1; 2; 7] ∧ ¬ contiguous_from_1 [1; 2; 7].
Proof. eexists _, _, _. by repeat split. Qed.

(** ** [np.unique] *)

Lemma elem_of_insert_unique (x y : Z) (l : list Z) :
  y ∈ insert_unique x l ↔ y = x ∨ y ∈ l.
Proof.
  induction l as [|z l IH]; simpl.
  - rewrite list_elem_of_singleton, elem_of_nil. tauto.
  - destruct (Z.ltb_spec x z); [by rewrite (elem_of_cons _ y x)|].
    destruct (Z.eqb_spec x z) as [->|Hne].
    + rewrite elem_of_cons. tauto.
    + rewrite !elem_of_cons, IH. tauto.
Qed.

Lemma elem_of_np_unique (y : Z) (a : list Z) : y ∈ np_unique a ↔ y ∈ a.
Proof.
  unfold np_unique. induction a as [|x a IH]; simpl; [done|].
  by rewrite elem_of_insert_unique, IH, elem_of_cons.
Qed.

Lemma insert_unique_sorted (x : Z) (l : list Z) :
  StronglySorted Z.lt l → StronglySorted Z.lt (insert_unique x l).
Proof.
  induction 1 as [|z l Hs IH Hall]; simpl.
  - repeat constructor.
  - destruct (Z.ltb_spec x z).
    + constructor; [by constructor|].
      constructor; [done|]. eapply Forall_impl; [exact Hall|]. simpl. lia.
    + destruct (Z.eqb_spec x z) as [->|Hne]; [by constructor|].
      constructor; [done|]. apply Forall_forall. intros y Hy.
      apply elem_of_insert_unique in Hy as [->|Hy]; [lia|].
      by eapply Forall_forall in Hall.
Qed.

Lemma np_unique_sorted (a : list Z) : StronglySorted Z.lt (np_unique a).
Proof.
  unfold np_unique. induction a as [|x a IH]; simpl; [constructor|].
  by apply insert_unique_sorted.
Qed.

Lemma StronglySorted_lt_NoDup (l : list Z) : StronglySorted Z.lt l → NoDup l.
Proof.
  induction 1 as [|x l Hs IH Hall]; constructor; [|done].
  intros Hx. eapply Forall_forall in Hall; [|exact Hx]. lia.
Qed.

Lemma np_unique_NoDup (a : list Z) : NoDup (np_unique a).
Proof. apply StronglySorted_lt_NoDup, np_unique_sorted. Qed.

(** The length of [np.unique(a)] is the number of distinct values of [a]. *)
Lemma length_np_unique (a : list Z) :
  length (np_unique a) = length (remove_dups a).
Proof.
  apply Permutation_length, NoDup_Permutation.
  - apply np_unique_NoDup.
  - apply NoDup_remove_dups.
  - intros x. by rewrite elem_of_np_unique, elem_of_remove_dups.
Qed.

(** A sorted array without repetition is determined by its values. *)
Lemma np_unique_eq (a l : list Z) :
  StronglySorted Z.lt l → (∀ x, x ∈ l ↔ x ∈ a) → np_unique a = l.
Proof.
  intros Hl Hel. apply (StronglySorted_unique_strong Z.lt).
  - intros x y _ _ ??. lia.
  - apply np_unique_sorted.
  - done.
  - apply NoDup_Permutation.
    + apply np_unique_NoDup.
    + by apply StronglySorted_lt_NoDup.
    + intros x. by rewrite elem_of_np_unique, Hel.
Qed.

(** ** The two sorts meet the contract *)

Lemma insert_by_Permutation (a : list Z) (i : nat) (p : list nat) :
  insert_by a i p ≡ₚ i :: p.
Proof.
  induction p as [|j p IH]; simpl; [done|].
  destruct (key_at a i <=? key_at a j); [done|].
  rewrite IH. apply Permutation_swap.
Qed.

Lemma sort_positions_Permutation (a : list Z) (p : list nat) :
  sort_positions a p ≡ₚ p.
Proof.
  unfold sort_positions. induction p as [|i p IH]; simpl; [done|].
  by rewrite insert_by_Permutation, IH.
Qed.

Lemma insert_by_Sorted (a : list Z) (i : nat) (p : list nat) :
  Sorted (λ x y, key_at a x ≤ key_at a y) p →
  Sorted (λ x y, key_at a x ≤ key_at a y) (insert_by a i p).
Proof.
  induction 1 as [|j p Hs IH Hhd]; simpl.
  - repeat constructor.
  - destruct (Z.leb_spec (key_at a i) (key_at a j)).
    + constructor; [by constructor|]. by constructor.
    + constructor; [done|].
      destruct Hhd as [|k p' Hjk]; simpl.
      * constructor. lia.
      * destruct (key_at a i <=? key_at a k); constructor; [lia|done].
Qed.

Lemma sort_positions_Sorted (a : list Z) (p : list nat) :
  Sorted Z.le (key_at a <$> sort_positions a p).
Proof.
  apply (Sorted_fmap _ (λ x y, key_at a x ≤ key_at a y)); [done|].
  unfold sort_positions. induction p as [|i p IH]; simpl; [constructor|].
  by apply insert_by_Sorted.
Qed.

Lemma insert_by_filter (a : list Z) (t : Z) (i : nat) (p : list nat) :
  filter (λ j, key_at a j = t) (insert_by a i p) =
  filter (λ j, key_at a j = t) (i :: p).
Proof.
  induction p as [|j p IH]; simpl; [done|].
  destruct (Z.leb_spec (key_at a i) (key_at a j)); [done|].
  rewrite filter_cons, IH, !filter_cons.
  destruct (decide (key_at a j = t)), (decide (key_at a i = t)); try done.
  lia.
Qed.

Lemma sort_positions_filter (a : list Z) (t : Z) (p : list nat) :
  filter (λ j, key_at a j = t) (sort_positions a p) =
  filter (λ j, key_at a j = t) p.
Proof.
  unfold sort_positions. induction p as [|i p IH]; simpl; [done|].
  by rewrite insert_by_filter, !filter_cons, IH.
Qed.

Lemma argsort_stable_contract : argsort_contract argsort_stable.
Proof.
  intros a. split; [apply sort_positions_Permutation|apply sort_positions_Sorted].
Qed.

Lemma argsort_reversing_contract : argsort_contract argsort_reversing.
Proof.
  intros a. split; [|apply sort_positions_Sorted].
  unfold argsort_reversing. rewrite sort_positions_Permutation.
  apply reverse_Permutation.
Qed.

Lemma StronglySorted_lt_seq (j n : nat) : StronglySorted lt (seq j n).
Proof.
  revert j. induction n as [|n IH]; intros j; simpl; constructor; [done|].
  apply Forall_forall. intros x Hx. apply elem_of_seq in Hx. lia.
Qed.

Lemma StronglySorted_filter {A} (R : relation A) (P : A → Prop)
    `{∀ x, Decision (P x)} (l : list A) :
  StronglySorted R l → StronglySorted R (filter P l).
Proof.
  induction 1 as [|x l Hs IH Hall]; [constructor|].
  rewrite filter_cons. destruct (decide (P x)); [|done].
  constructor; [done|]. apply Forall_forall. intros y Hy.
  apply list_elem_of_filter in Hy as [_ Hy]. by eapply Forall_forall in Hall.
Qed.

Lemma argsort_stable_is_stable : argsort_is_stable argsort_stable.
Proof.
  intros a t. unfold argsort_stable. rewrite sort_positions_filter.
  apply StronglySorted_filter, StronglySorted_lt_seq.
Qed.

(** The reversing sort meets the contract without being stable. *)
Lemma argsort_reversing_not_stable : ¬ argsort_is_stable argsort_reversing.
Proof.
  intros H. specialize (H [5; 5] 5). vm_compute in H.
  inversion H as [|? ? _ Hall]. inversion Hall as [|? ? Hlt _]. lia.
Qed.

(** ** Indexing by a permutation of the positions *)

Lemma np_take_total (a : list Z) (idx : list nat) :
  Forall (λ i, (i < length a)%nat) idx →
  np_take a idx = Ok (key_at a <$> idx).
Proof.
  intros Hall. apply mapM_Ok. intros i Hi.
  eapply Forall_forall in Hall; [|exact Hi].
  apply lookup_lt_is_Some in Hall as [x Hx]. unfold key_at. by rewrite Hx.
Qed.

Lemma argsort_in_range (argsort : list Z → list nat) (a : list Z) :
  argsort_contract argsort →
  Forall (λ i, (i < length a)%nat) (argsort a).
Proof.
  intros Hc. destruct (Hc a) as [Hp _]. rewrite Hp.
  apply Forall_forall. intros i Hi. apply elem_of_seq in Hi. lia.
Qed.

Lemma zip_fmap_same {A B C} (f : A → B) (g : A → C) (l : list A) :
  zip (f <$> l) (g <$> l) = (λ i, (f i, g i)) <$> l.
Proof. induction l as [|x l IH]; [done|]. rewrite !fmap_cons. simpl. by f_equal. Qed.

Lemma fmap_keys_seq (a b : list Z) :
  length a = length b →
  (λ i, (key_at a i, key_at b i)) <$> seq 0 (length a) = zip a b.
Proof.
  intros Hlen. apply list_eq. intros i. rewrite list_lookup_fmap.
  rewrite (lookup_zip_with pair a b i).
  destruct (decide (i < length a)%nat) as [Hi|Hi].
  - rewrite lookup_seq_lt by done. simpl. unfold key_at.
    destruct (lookup_lt_is_Some_2 a i Hi) as [x ->].
    destruct (lookup_lt_is_Some_2 b i) as [y ->]; [lia|]. done.
  - rewrite lookup_seq_ge by lia. simpl.
    by rewrite (lookup_ge_None_2 a i) by lia.
Qed.

(** Reordering two arrays of one length by a permutation of their positions
    reorders the pairs. *)
Lemma permuted_pairs (a b : list Z) (p : list nat) :
  length a = length b →
  p ≡ₚ seq 0 (length a) →
  zip (key_at a <$> p) (key_at b <$> p) ≡ₚ zip a b.
Proof.
  intros Hlen Hp. rewrite zip_fmap_same, Hp. by rewrite fmap_keys_seq.
Qed.

(** ** The labelled spikes *)

Lemma zip_replicate (st : list Z) (v : Z) :
  zip st (replicate (length st) v) = (λ x, (x, v)) <$> st.
Proof. induction st as [|x st IH]; simpl; [done|]. by rewrite IH. Qed.

Lemma zip_concat_labels (g : nat → Z) (sts : list (list Z)) :
  zip (concat sts) (concat (imap (λ i st, replicate (length st) (g i)) sts)) =
  concat (imap (λ i st, (λ x, (x, g i)) <$> st) sts).
Proof.
  revert g. induction sts as [|st sts IH]; intros g; [done|].
  rewrite !imap_cons, !concat_cons.
  rewrite (zip_with_app pair) by (by rewrite length_replicate).
  f_equal; [apply zip_replicate|]. apply (IH (g ∘ S)).
Qed.

Lemma length_concat_labels (g : nat → Z) (sts : list (list Z)) :
  length (concat (imap (λ i st, replicate (length st) (g i)) sts)) =
  length (concat sts).
Proof.
  revert g. induction sts as [|st sts IH]; intros g; [done|].
  rewrite imap_cons, !concat_cons, !length_app, length_replicate.
  f_equal. apply (IH (g ∘ S)).
Qed.

Lemma zip_labels_of (sts : list (list Z)) :
  zip (np_concatenate sts) (labels_of sts) = labelled_spikes sts.
Proof. apply (zip_concat_labels (λ i, Z.of_nat i + 1)). Qed.

Lemma length_labels_of (sts : list (list Z)) :
  length (labels_of sts) = length (np_concatenate sts).
Proof. apply (length_concat_labels (λ i, Z.of_nat i + 1)). Qed.

Lemma filter_same_label (v : Z) (st : list Z) :
  filter (λ p : Z * Z, p.2 = v) ((λ x, (x, v)) <$> st) = (λ x, (x, v)) <$> st.
Proof.
  induction st as [|x st IH]; [done|].
  rewrite fmap_cons, filter_cons_True by done. by rewrite IH.
Qed.

Lemma filter_other_label (v w : Z) (st : list Z) :
  w ≠ v →
  filter (λ p : Z * Z, p.2 = v) ((λ x, (x, w)) <$> st) = [].
Proof.
  intros Hne. induction st as [|x st IH]; [done|].
  by rewrite fmap_cons, filter_cons_False.
Qed.

Lemma filter_absent_label (h : nat → Z) (v : Z) (sts : list (list Z)) :
  (∀ i, h i ≠ v) →
  filter (λ p : Z * Z, p.2 = v)
         (concat (imap (λ i st, (λ x, (x, h i)) <$> st) sts)) = [].
Proof.
  revert h. induction sts as [|st sts IH]; intros h Hh; [done|].
  rewrite imap_cons. simpl. rewrite filter_app, filter_other_label by done.
  apply (IH (h ∘ S)). intros i. apply Hh.
Qed.

(** The spikes carrying the label of position [j] are the train at [j]. *)
Lemma filter_label (g : nat → Z) (sts : list (list Z)) (j : nat) :
  (∀ i i', g i = g i' → i = i') →
  (filter (λ p : Z * Z, p.2 = g j)
          (concat (imap (λ i st, (λ x, (x, g i)) <$> st) sts))).*1 =
  default [] (sts !! j).
Proof.
  revert g j. induction sts as [|st sts IH]; intros g j Hinj; [done|].
  rewrite imap_cons. simpl. rewrite filter_app, fmap_app.
  destruct j as [|j]; simpl.
  - rewrite filter_same_label.
    rewrite (filter_absent_label (g ∘ S)).
    + rewrite app_nil_r, <- list_fmap_compose. apply list_fmap_id.
    + intros i Heq. by apply Hinj in Heq.
  - rewrite filter_other_label.
    + apply (IH (g ∘ S) j). intros i i' Heq. apply Hinj in Heq. lia.
    + intros Heq. by apply Hinj in Heq.
Qed.

Lemma labelled_spikes_train (sts : list (list Z)) (j : nat) :
  (filter (λ p : Z * Z, p.2 = Z.of_nat j + 1) (labelled_spikes sts)).*1 =
  default [] (sts !! j).
Proof. apply (filter_label (λ i, Z.of_nat i + 1)). intros. lia. Qed.

Lemma elem_of_concat_labels (g : nat → Z) (sts : list (list Z)) (v : Z) :
  v ∈ concat (imap (λ i st, replicate (length st) (g i)) sts) ↔
  ∃ j st, sts !! j = Some st ∧ st ≠ [] ∧ v = g j.
Proof.
  revert g. induction sts as [|st sts IH]; intros g.
  - simpl. rewrite elem_of_nil. split; [done|]. by intros (j & st & ? & _).
  - rewrite imap_cons, concat_cons, elem_of_app, (IH (g ∘ S)). split.
    + intros [Hin|(j & st' & Hj & Hne & ->)].
      * apply elem_of_replicate in Hin as [-> Hlen].
        exists 0%nat, st. split; [done|]. split; [|done]. by destruct st.
      * by exists (S j), st'.
    + intros ([|j] & st' & Hj & Hne & ->).
      * left. injection Hj as ->. apply elem_of_replicate. split; [done|].
        by destruct st'.
      * right. by exists j, st'.
Qed.

Lemma elem_of_labels_of (sts : list (list Z)) (v : Z) :
  v ∈ labels_of sts ↔
  ∃ j st, sts !! j = Some st ∧ st ≠ [] ∧ v = Z.of_nat j + 1.
Proof. apply (elem_of_concat_labels (λ i, Z.of_nat i + 1)). Qed.

(** ** What [write_sorting] hands to [np.savetxt] *)

Lemma write_arrays_nonempty (argsort : list Z → list nat)
    (sorting : SortingExtractor) (unit_ids : list Z) (spiketrains : list (list Z)) :
  argsort_contract argsort →
  sorting_get_unit_ids sorting = Ok unit_ids →
  unit_ids ≠ [] →
  mapM (sorting_get_unit_spike_train sorting) unit_ids = Ok spiketrains →
  let res_sort := argsort (np_concatenate spiketrains) in
  let res := key_at (np_concatenate spiketrains) <$> res_sort in
  let clu := key_at (labels_of spiketrains) <$> res_sort in
  write_arrays argsort sorting =
    Ok (res, Z.of_nat (length (np_unique clu)) :: clu).
Proof.
  intros Hc Hids Hne Hsts. simpl. unfold write_arrays.
  rewrite Hids, bind_Ok.
  rewrite decide_True by (destruct unit_ids; [done|simpl; lia]).
  rewrite Hsts, bind_Ok.
  rewrite (np_take_total (np_concatenate spiketrains))
    by by apply argsort_in_range.
  rewrite bind_Ok.
  fold (labels_of spiketrains).
  rewrite (np_take_total (labels_of spiketrains)); [done|].
  rewrite length_labels_of. by apply argsort_in_range.
Qed.

Lemma write_arrays_empty (argsort : list Z → list nat) (sorting : SortingExtractor) :
  sorting_get_unit_ids sorting = Ok [] →
  write_arrays argsort sorting = Ok ([], [0]).
Proof. intros Hids. unfold write_arrays. by rewrite Hids. Qed.

Lemma filter_fmap_comm {A B} (f : A → B) (P : B → Prop)
    `{∀ y, Decision (P y)} (l : list A) :
  filter P (f <$> l) = f <$> filter (λ x, P (f x)) l.
Proof.
  induction l as [|x l IH]; [done|].
  rewrite fmap_cons, !filter_cons, IH. by destruct (decide (P (f x))).
Qed.

(** Under a stable sort the positions of each value come out as they went
    in. *)
Lemma stable_positions (argsort : list Z → list nat) (a : list Z) (t : Z) :
  argsort_contract argsort →
  argsort_is_stable argsort →
  filter (λ i, key_at a i = t) (argsort a) =
  filter (λ i, key_at a i = t) (seq 0 (length a)).
Proof.
  intros Hc Hs. destruct (Hc a) as [Hp _].
  apply (StronglySorted_unique_strong lt).
  - intros x y _ _ ??. lia.
  - apply Hs.
  - apply StronglySorted_filter, StronglySorted_lt_seq.
  - by rewrite Hp.
Qed.

(** C4 (as amended): for a collection with at least one unit,
    write_sorting labels the spikes of the train at position i with i+1,
    reorders times and labels jointly so that the emitted times are
    non-decreasing and the emitted (time, label) pairs are a rearrangement of
    the labelled spikes, and puts in the clu header the number of distinct
    labels in the emitted body.  Spikes of equal time keep their order of
    concatenation whenever the sort [np.argsort] performs is stable, which
    its default kind does not promise. *)
Theorem C4_write_order (argsort : list Z → list nat)
    (sorting : SortingExtractor) (unit_ids : list Z) (spiketrains : list (list Z)) :
  argsort_contract argsort →
  sorting_get_unit_ids sorting = Ok unit_ids →
  unit_ids ≠ [] →
  mapM (sorting_get_unit_spike_train sorting) unit_ids = Ok spiketrains →
  ∃ res clu,
    write_arrays argsort sorting =
      Ok (res, Z.of_nat (length (remove_dups clu)) :: clu) ∧
    length res = length clu ∧
    zip res clu ≡ₚ labelled_spikes spiketrains ∧
    Sorted Z.le res ∧
    (argsort_is_stable argsort →
     ∀ t, filter (λ p, p.1 = t) (zip res clu) =
          filter (λ p, p.1 = t) (labelled_spikes spiketrains)).
Proof.
  intros Hc Hids Hne Hsts.
  pose proof (write_arrays_nonempty argsort sorting unit_ids spiketrains
                Hc Hids Hne Hsts) as Hw. simpl in Hw.
  destruct (Hc (np_concatenate spiketrains)) as [Hp Hsorted].
  eexists _, _. split; [|split; [|split; [|split]]].
  - rewrite Hw. by rewrite length_np_unique.
  - by rewrite !length_fmap.
  - rewrite <- zip_labels_of. apply permuted_pairs; [|done].
    by rewrite length_labels_of.
  - done.
  - intros Hs t. rewrite zip_fmap_same, <- zip_labels_of.
    rewrite <- (fmap_keys_seq (np_concatenate spiketrains) (labels_of spiketrains))
      by (by rewrite length_labels_of).
    rewrite !(filter_fmap_comm _ (λ p : Z * Z, p.1 = t)). simpl.
    f_equal. by apply stable_positions.
Qed.

(** Scenario C: two units with spikes 50, 10 and 30. *)
Lemma C4_write_order_witness :
  write_arrays argsort_stable
    (as_sorting {| _sampling_frequency := "30000";
                   _unit_ids := Some [1; 2];
                   _spiketrains := Some [[50; 10]; [30]] |})
  = Ok ([10; 30; 50], [2; 1; 2; 1]).
Proof.
  destruct (C4_write_order argsort_stable
              (as_sorting {| _sampling_frequency := "30000";
                             _unit_ids := Some [1; 2];
                             _spiketrains := Some [[50; 10]; [30]] |})
              [1; 2] [[50; 10]; [30]] argsort_stable_contract eq_refl
              ltac:(done) eq_refl) as (res & clu & Hw & _).
  reflexivity.
Defined.

(** C4 as stated fails on stability.  Two units hold ten spikes each, all
    at time 5.  A sort that meets the contract of [np.argsort] may emit the
    ten labels 2 before the ten labels 1, while the order of concatenation,
    which a stable sort keeps, has the labels 1 first. *)
Lemma C4_stable_counterexample :
  argsort_contract argsort_reversing ∧
  labelled_spikes [replicate 10 5; replicate 10 5] =
    zip (replicate 20 5) (replicate 10 1 ++ replicate 10 2) ∧
  write_arrays argsort_reversing
    (as_sorting {| _sampling_frequency := "30000";
                   _unit_ids := Some [1; 2];
                   _spiketrains := Some [replicate 10 5; replicate 10 5] |})
  = Ok (replicate 20 5, 2 :: replicate 10 2 ++ replicate 10 1) ∧
  zip (replicate 20 5) (replicate 10 2 ++ replicate 10 1) ≠
    labelled_spikes [replicate 10 5; replicate 10 5].
Proof.
  split; [apply argsort_reversing_contract|].
  split; [by vm_compute|]. split; [by vm_compute|]. by vm_compute.
Qed.

(** ** Reading back what was written *)

Lemma py_index_seqZ (m n : Z) (i : nat) :
  Z.of_nat i < n →
  py_index (m + Z.of_nat i) (seqZ m n) = Ok i.
Proof.
  revert m n. induction i as [|i IH]; intros m n Hi.
  - rewrite seqZ_cons by lia. simpl.
    by rewrite Z.add_0_r, Z.eqb_refl.
  - rewrite seqZ_cons by lia. simpl py_index.
    destruct (Z.eqb_spec m (m + Z.of_nat (S i))) as [Heq|_]; [lia|].
    replace (m + Z.of_nat (S i)) with (Z.succ m + Z.of_nat i) by lia.
    rewrite IH by lia. done.
Qed.

Lemma seqZ_of_seq (k : nat) :
  seqZ 1 (Z.of_nat k) = (λ i : nat, Z.of_nat i + 1) <$> seq 0 k.
Proof. unfold seqZ. by rewrite Nat2Z.id. Qed.

Lemma fmap_lookup_seq {A B} (f : A → B) (d : A) (l : list A) :
  (λ i, f (default d (l !! i))) <$> seq 0 (length l) = f <$> l.
Proof.
  apply list_eq. intros i. rewrite !list_lookup_fmap.
  destruct (decide (i < length l)%nat) as [Hi|Hi].
  - rewrite lookup_seq_lt by done. simpl.
    by destruct (lookup_lt_is_Some_2 l i Hi) as [x ->].
  - rewrite lookup_seq_ge by lia. by rewrite (lookup_ge_None_2 l i) by lia.
Qed.

(** The trains [write_sorting] obtains from an extractor whose ids are
    1..n: every stored train, restricted to the frames from 0 on. *)
Lemma written_trains (self : t) (sts : list (list Z)) :
  _unit_ids self = Some (seqZ 1 (Z.of_nat (length sts))) →
  _spiketrains self = Some sts →
  mapM (sorting_get_unit_spike_train (as_sorting self))
       (seqZ 1 (Z.of_nat (length sts))) =
  Ok (filter (in_frames 0 None) <$> sts).
Proof.
  intros Hids Hsts.
  rewrite (mapM_Ok _ (λ u, filter (in_frames 0 None)
                             (default [] (sts !! Z.to_nat (u - 1))))).
  - f_equal. rewrite seqZ_of_seq, <- list_fmap_compose.
    rewrite <- (fmap_lookup_seq (filter (in_frames 0 None)) [] sts).
    apply list_fmap_ext. intros _ i _. simpl.
    by replace (Z.to_nat (Z.of_nat i + 1 - 1)) with i by lia.
  - intros u Hu. apply elem_of_seqZ in Hu. simpl.
    unfold get_unit_spike_train, get_unit_ids. rewrite Hsts, Hids. simpl.
    replace u with (1 + Z.of_nat (Z.to_nat (u - 1))) at 1 by lia.
    rewrite py_index_seqZ by lia. simpl.
    destruct (lookup_lt_is_Some_2 sts (Z.to_nat (u - 1))) as [st ->]; [lia|].
    done.
Qed.

Lemma filter_in_frames_nonneg (st : list Z) :
  Forall (λ x, 0 ≤ x) st → filter (in_frames 0 None) st = st.
Proof.
  induction 1 as [|x st Hx _ IH]; [done|].
  rewrite filter_cons_True by done. by rewrite IH.
Qed.

Lemma elem_of_aligned_spikes (res clu : list Z) (k x : Z) :
  x ∈ aligned_spikes res clu k → x ∈ res.
Proof.
  unfold aligned_spikes. intros Hx.
  apply list_elem_of_fmap in Hx as ([x' c] & -> & Hin).
  apply list_elem_of_filter in Hin as [_ Hin].
  apply elem_of_zip_l in Hin. done.
Qed.

(** A label's spikes are read in file order: sorted times stay sorted. *)
Lemma aligned_spikes_sorted (res clu : list Z) (k : Z) :
  Sorted Z.le res → Sorted Z.le (aligned_spikes res clu k).
Proof.
  intros Hs. apply Sorted_StronglySorted in Hs; [|apply _].
  apply StronglySorted_Sorted. revert clu.
  induction Hs as [|r res Hs IH Hall]; intros clu.
  - destruct clu; constructor.
  - destruct clu as [|c clu]; [constructor|].
    rewrite aligned_spikes_cons. destruct (decide (c = k)); [|apply IH].
    constructor; [apply IH|]. apply Forall_forall. intros x Hx.
    apply elem_of_aligned_spikes in Hx. by eapply Forall_forall in Hall.
Qed.

Lemma StronglySorted_lt_seqZ (m n : Z) : StronglySorted Z.lt (seqZ m n).
Proof.
  unfold seqZ. apply (StronglySorted_fmap _ lt); [lia|].
  apply StronglySorted_lt_seq.
Qed.

Lemma permuted_keys (a : list Z) (p : list nat) :
  p ≡ₚ seq 0 (length a) → key_at a <$> p ≡ₚ a.
Proof.
  intros ->.
  assert (key_at a <$> seq 0 (length a) = a) as ->; [|done].
  transitivity (id <$> a); [|apply list_fmap_id].
  apply (fmap_lookup_seq id 0 a).
Qed.

Lemma fmap_filter_nonneg (sts : list (list Z)) :
  Forall (Forall (λ x, 0 ≤ x)) sts →
  filter (in_frames 0 None) <$> sts = sts.
Proof.
  induction 1 as [|st sts Hst _ IH]; [done|].
  by rewrite fmap_cons, IH, filter_in_frames_nonneg.
Qed.

(** When every train after the first has a spike and two trains at least
    have one, the labels written are the unit numbers from [lo] on, where
    [lo] is 2 if the first train is empty and 1 otherwise. *)
Lemma elem_of_labels_from (sts : list (list Z)) :
  Forall (λ st, st ≠ []) (tail sts) →
  (2 ≤ length (filter (λ st, st ≠ []) sts))%nat →
  ∃ lo, (lo = 1 ∨ lo = 2) ∧
        2 ≤ Z.of_nat (length sts) + 1 - lo ∧
        ∀ x, x ∈ labels_of sts ↔ lo ≤ x ≤ Z.of_nat (length sts).
Proof.
  intros Htail Htwo. destruct sts as [|st0 sts1]; [simpl in Htwo; lia|].
  simpl in Htail.
  destruct (decide (st0 = [])) as [-> | H0].
  - exists 2. rewrite filter_cons_False in Htwo by (intros H; by apply H).
    pose proof (length_filter (λ st : list Z, st ≠ []) sts1) as Hle.
    split; [by right|]. split; [simpl; lia|].
    intros x. rewrite elem_of_labels_of. split.
    + intros (j & st & Hj & Hst & ->). destruct j as [|j].
      { simpl in Hj. by injection Hj as <-. }
      simpl in Hj. apply lookup_lt_Some in Hj. simpl. lia.
    + intros Hx. simpl in Hx.
      destruct (lookup_lt_is_Some_2 sts1 (Z.to_nat (x - 2))) as [st Hst]; [lia|].
      exists (S (Z.to_nat (x - 2))), st. split; [done|]. split; [|lia].
      by apply (Forall_lookup_1 _ _ _ _ Htail) in Hst.
  - exists 1.
    assert (Forall (λ st, st ≠ []) (st0 :: sts1)) as Hall by by constructor.
    pose proof (length_filter (λ st : list Z, st ≠ []) (st0 :: sts1)) as Hle.
    split; [by left|]. split; [lia|].
    intros x. rewrite elem_of_labels_of. split.
    + intros (j & st & Hj & _ & ->). apply lookup_lt_Some in Hj. lia.
    + intros Hx.
      destruct (lookup_lt_is_Some_2 (st0 :: sts1) (Z.to_nat (x - 1)))
        as [st Hst]; [lia|].
      exists (Z.to_nat (x - 1)), st. split; [done|]. split; [|lia].
      by apply (Forall_lookup_1 _ _ _ _ Hall) in Hst.
Qed.

(** Writing an extractor whose ids are 1..n, of which two units at least
    have a spike, every unit after the first has one and none has a negative
    time, and reading the result back. *)
Lemma round_trip_object (argsort : list Z → list nat) (sf : pyfloat)
    (self : t) (sts : list (list Z)) :
  argsort_contract argsort →
  _unit_ids self = Some (seqZ 1 (Z.of_nat (length sts))) →
  _spiketrains self = Some sts →
  (2 ≤ length (filter (λ st, st ≠ []) sts))%nat →
  Forall (λ st, st ≠ []) (tail sts) →
  Forall (Forall (λ x, 0 ≤ x)) sts →
  ∃ res' clu' sts',
    write_arrays argsort (as_sorting self) = Ok (res', clu') ∧
    read_pair Legacy true sf res' clu' =
      Ok {| _sampling_frequency := sf;
            _unit_ids := Some (seqZ 1 (Z.of_nat (length sts)));
            _spiketrains := Some sts' |} ∧
    Forall2 (λ st st', Sorted Z.le st' ∧ st' ≡ₚ st) sts sts'.
Proof.
  intros Hc Hids Hsts Htwo Htail Hneg.
  set (m := Z.of_nat (length sts)).
  destruct (elem_of_labels_from sts Htail Htwo) as (lo & Hlo & Hd & Hel).
  fold m in Hd, Hel.
  assert (mapM (sorting_get_unit_spike_train (as_sorting self)) (seqZ 1 m)
          = Ok sts) as Htrains.
  { unfold m. rewrite written_trains by done. by rewrite fmap_filter_nonneg. }
  assert (seqZ 1 m ≠ []) as Hne.
  { intros Hnil. apply (f_equal length) in Hnil.
    rewrite length_seqZ in Hnil. simpl in Hnil. lia. }
  pose proof (write_arrays_nonempty argsort (as_sorting self) (seqZ 1 m) sts Hc
                ltac:(simpl; unfold get_unit_ids; by rewrite Hids) Hne Htrains)
    as Hw. simpl in Hw.
  set (res0 := np_concatenate sts) in *.
  set (clu0 := labels_of sts) in *.
  set (p := argsort res0) in *.
  destruct (Hc res0) as [Hp Hsorted]. fold p in Hp, Hsorted.
  assert (length clu0 = length res0) as Hlen by apply length_labels_of.
  assert (key_at clu0 <$> p ≡ₚ clu0) as Hclu
    by (apply permuted_keys; by rewrite Hlen).
  set (d := m + 1 - lo) in *.
  assert (np_unique (key_at clu0 <$> p) = seqZ lo d) as Hunique.
  { apply np_unique_eq; [apply StronglySorted_lt_seqZ|].
    intros x. rewrite Hclu, Hel, elem_of_seqZ. unfold d. lia. }
  rewrite Hunique, length_seqZ in Hw.
  replace (Z.of_nat (Z.to_nat d)) with d in Hw by lia.
  assert (key_at res0 <$> p ≠ []) as Hres.
  { intros Hnil. apply (f_equal length) in Hnil.
    rewrite length_fmap, Hp, length_seq, <- Hlen in Hnil. simpl in Hnil.
    assert (m ∈ clu0) as Hin by (apply Hel; lia).
    apply nil_length_inv in Hnil. rewrite Hnil in Hin.
    by apply elem_of_nil in Hin. }
  assert (adjust_n_clu Legacy d (seqZ lo d) = Ok (m + 1)) as Hadj.
  { rewrite adjust_n_clu_legacy.
    - unfold np_in.
      rewrite (bool_decide_eq_false_2 (0 ∈ seqZ lo d))
        by (rewrite elem_of_seqZ; lia).
      destruct Hlo as [Hlo | Hlo].
      + rewrite bool_decide_eq_true_2 by (apply elem_of_seqZ; lia).
        f_equal. lia.
      + rewrite bool_decide_eq_false_2 by (rewrite elem_of_seqZ; lia).
        f_equal. lia.
    - unfold np_arange. rewrite !length_seqZ. lia.
    - rewrite length_seqZ. lia.
    - lia. }
  eexists _, _, (aligned_spikes (key_at res0 <$> p) (key_at clu0 <$> p)
                   <$> seqZ 1 m).
  split; [exact Hw|]. split.
  - rewrite read_pair_nonempty, Hunique, Hadj, bind_Ok by done.
    rewrite select_units_ok.
    + unfold selected. rewrite bind_Ok.
      by replace (m + 1 - 1) with m by lia.
    + intros i s Hi _. apply lookup_lt_Some in Hi.
      rewrite length_fmap in *. done.
  - unfold m. rewrite seqZ_of_seq, <- list_fmap_compose.
    rewrite <- (list_fmap_id sts) at 1.
    rewrite <- (fmap_lookup_seq id [] sts).
    apply Forall2_fmap, Forall_Forall2_diag, Forall_forall.
    intros i _. simpl. split.
    + by apply aligned_spikes_sorted.
    + rewrite <- labelled_spikes_train. unfold aligned_spikes.
      apply fmap_Permutation, filter_Permutation.
      rewrite <- zip_labels_of. apply permuted_pairs; [by symmetry|done].
Qed.

(** C3 (as amended): under the legacy comparison rule, when
    Read(keep_mua_units=true) succeeds on a res/clu pair and returns units
    of which at least two have a spike, every unit after the first has one,
    and none has a negative time, Write followed by
    Read(keep_mua_units=true) succeeds, returns the same unit ids, and gives
    every unit the ascending rearrangement of its original spikes.  The
    first unit, the multi-unit activity, may be empty. *)
Theorem C3_round_trip (argsort : list Z → list nat) (sf : pyfloat)
    (res clu : list Z) (self : t) (ids : list Z) (sts : list (list Z)) :
  argsort_contract argsort →
  read_pair Legacy true sf res clu = Ok self →
  _unit_ids self = Some ids →
  _spiketrains self = Some sts →
  (2 ≤ length (filter (λ st, st ≠ []) sts))%nat →
  Forall (λ st, st ≠ []) (tail sts) →
  Forall (Forall (λ x, 0 ≤ x)) sts →
  ∃ res' clu' self' sts',
    write_arrays argsort (as_sorting self) = Ok (res', clu') ∧
    read_pair Legacy true sf res' clu' = Ok self' ∧
    _unit_ids self' = Some ids ∧
    _spiketrains self' = Some sts' ∧
    Forall2 (λ st st', Sorted Z.le st' ∧ st' ≡ₚ st) sts sts'.
Proof.
  intros Hc Hread Hids Hsts Htwo Htail Hneg.
  assert (res ≠ []) as Hres.
  { intros ->. unfold read_pair in Hread. simpl in Hread.
    injection Hread as <-. done. }
  destruct (read_pair_unit_ids Legacy true sf res clu self Hres Hread)
    as (ids0 & sts0 & Hids0 & Hsts0 & Hcont & Hlen).
  rewrite Hids in Hids0. injection Hids0 as <-.
  rewrite Hsts in Hsts0. injection Hsts0 as <-.
  unfold contiguous_from_1 in Hcont. rewrite <- Hlen in Hcont.
  destruct (round_trip_object argsort sf self sts Hc)
    as (res' & clu' & sts' & Hw & Hr & Hf).
  - by rewrite Hids, Hcont at 1.
  - done.
  - done.
  - done.
  - done.
  - eexists res', clu', _, sts'. split; [done|]. split; [exact Hr|].
    simpl. by rewrite Hcont at 1.
Qed.

(** A pair without multi-unit spikes, res = 5, 7 with clu = 2, 2, 3: the
    units read are 1, 2, 3 with spikes none; 5; 7, and they are written and
    read back unchanged. *)
Lemma C3_round_trip_witness :
  ∃ res' clu' self' sts',
    write_arrays argsort_stable
      (as_sorting {| _sampling_frequency := "30000";
                     _unit_ids := Some [1; 2; 3];
                     _spiketrains := Some [[]; [5]; [7]] |}) = Ok (res', clu') ∧
    read_pair Legacy true "30000" res' clu' = Ok self' ∧
    _unit_ids self' = Some [1; 2; 3] ∧
    _spiketrains self' = Some sts' ∧
    Forall2 (λ st st', Sorted Z.le st' ∧ st' ≡ₚ st) [[]; [5]; [7]] sts'.
Proof.
  apply (C3_round_trip argsort_stable "30000" [5; 7] [2; 2; 3]
           {| _sampling_frequency := "30000";
              _unit_ids := Some [1; 2; 3];
              _spiketrains := Some [[]; [5]; [7]] |}).
  - apply argsort_stable_contract.
  - reflexivity.
  - reflexivity.
  - reflexivity.
  - vm_compute. lia.
  - repeat constructor; discriminate.
  - repeat constructor; lia.
Defined.

(** C3 as stated fails.  On res = 10, 20, 30, 40 with clu = 4, 0, 1, 3, 1
    the first read (legacy rule) gives units 1, 2, 3 with spikes 20, 40;
    none; 30.  The files written hold times 20, 30, 40 and clu 2, 1, 3, 1,
    and reading them gives units 1, 2 only: unit 3 and its spike 30 are gone.
    Under the strict rule the first read of these files already raises. *)
Lemma C3_round_trip_counterexample :
  read_pair Legacy true "30000" [10; 20; 30; 40] [4; 0; 1; 3; 1] =
    Ok {| _sampling_frequency := "30000";
          _unit_ids := Some [1; 2; 3];
          _spiketrains := Some [[20; 40]; []; [30]] |} ∧
  write_arrays argsort_stable
    (as_sorting {| _sampling_frequency := "30000";
                   _unit_ids := Some [1; 2; 3];
                   _spiketrains := Some [[20; 40]; []; [30]] |}) =
    Ok ([20; 30; 40], [2; 1; 3; 1]) ∧
  read_pair Legacy true "30000" [20; 30; 40] [2; 1; 3; 1] =
    Ok {| _sampling_frequency := "30000";
          _unit_ids := Some [1; 2];
          _spiketrains := Some [[20; 40]; []] |} ∧
  read_pair Strict true "30000" [10; 20; 30; 40] [4; 0; 1; 3; 1] =
    Raise ValueError.
Proof. by repeat split. Qed.

(** Why the amended statement asks for two units with a spike: when a
    single label is written, the comparison of line 195 broadcasts and the
    second read raises, under either rule. *)
Lemma round_trip_single_label_raises (era : numpy_era) :
  read_pair Legacy true "30000" [1; 2; 3] [3; 0; 2; 2] =
    Ok {| _sampling_frequency := "30000";
          _unit_ids := Some [1; 2; 3];
          _spiketrains := Some [[]; [2; 3]; []] |} ∧
  write_arrays argsort_stable
    (as_sorting {| _sampling_frequency := "30000";
                   _unit_ids := Some [1; 2; 3];
                   _spiketrains := Some [[]; [2; 3]; []] |}) =
    Ok ([2; 3], [1; 2; 2]) ∧
  read_pair era true "30000" [2; 3] [1; 2; 2] = Raise ValueError.
Proof. by destruct era. Qed.

(** Why it asks for non-negative times: [get_unit_spike_train] with its
    default frames keeps the times from 0 on, so a negative time is not
    written. *)
Lemma round_trip_drops_negative_time :
  read_pair Legacy true "30000" [-5; 10; 20; 30] [3; 1; 1; 2; 2] =
    Ok {| _sampling_frequency := "30000";
          _unit_ids := Some [1; 2; 3];
          _spiketrains := Some [[-5; 10]; [20; 30]; []] |} ∧
  write_arrays argsort_stable
    (as_sorting {| _sampling_frequency := "30000";
                   _unit_ids := Some [1; 2; 3];
                   _spiketrains := Some [[-5; 10]; [20; 30]; []] |}) =
    Ok ([10; 20; 30], [2; 1; 2; 2]).
Proof. by split. Qed.

(** ** Paths and files *)

Lemma path_in_ext_inj (folder name e1 e2 : string) :
  path_in folder name e1 = path_in folder name e2 → e1 = e2.
Proof.
  unfold path_in. intros H.
  by repeat apply (inj (String.app _)) in H.
Qed.

Lemma path_in_ext_ne (folder name e1 e2 : string) :
  e1 ≠ e2 → path_in folder name e1 ≠ path_in folder name e2.
Proof. intros Hne Heq. by apply path_in_ext_inj in Heq. Qed.

Lemma isfile_Some (fs : filesystem) (p : string) (f : file) :
  fs !! p = Some f → isfile fs p = true.
Proof. intros H. unfold isfile. apply bool_decide_eq_true_2. eauto. Qed.

Lemma isfile_None (fs : filesystem) (p : string) :
  fs !! p = None → isfile fs p = false.
Proof.
  intros H. unfold isfile. apply bool_decide_eq_false_2.
  rewrite H. by intros [? ?].
Qed.

Lemma loadtxt_savetxt (fs : filesystem) (p : string) (a : list Z) :
  np_loadtxt (np_savetxt p a fs) p = Ok a.
Proof. unfold np_loadtxt, np_savetxt. by rewrite lookup_insert_eq. Qed.

Lemma write_sorting_written (argsort : list Z → list nat)
    (sorting : SortingExtractor) (save_path : string) (fs : filesystem) :
  NeuroscopeSortingExtractor.write_sorting argsort sorting save_path fs =
  '(res, clu) ← write_arrays argsort sorting;
  mret (written sorting save_path res clu fs).
Proof.
  unfold NeuroscopeSortingExtractor.write_sorting, written.
  destruct (write_arrays argsort sorting) as [[res clu]|]; done.
Qed.

(** The multi-shank writer is the single-pair writer. *)
Lemma multi_write_sorting_eq (argsort : list Z → list nat)
    (sorting : SortingExtractor) (save_path : string) (fs : filesystem) :
  NeuroscopeMultiSortingExtractor.write_sorting argsort sorting save_path fs =
  NeuroscopeSortingExtractor.write_sorting argsort sorting save_path fs.
Proof.
  unfold NeuroscopeMultiSortingExtractor.write_sorting,
    NeuroscopeSortingExtractor.write_sorting, write_arrays.
  destruct (sorting_get_unit_ids sorting) as [unit_ids|]; [|done].
  rewrite !bind_Ok.
  destruct (decide (0 < length unit_ids)%nat); [|done].
  destruct (mapM (sorting_get_unit_spike_train sorting) unit_ids)
    as [spiketrains|]; [|done].
  rewrite !bind_Ok.
  destruct (np_take (np_concatenate spiketrains) _) as [res|]; [|done].
  rewrite !bind_Ok.
  destruct (np_take _ _) as [clu|]; done.
Qed.

Lemma written_lookup_xml (sorting : SortingExtractor) (save_path : string)
    (res clu : list Z) (fs : filesystem) :
  let save_xml := path_in save_path (os_path_split save_path).2 ".xml" in
  written sorting save_path res clu fs !! save_xml =
  match fs !! save_xml with
  | Some doc => Some doc
  | None => Some (XmlDoc [("samplingrate", sorting_get_sampling_frequency sorting)])
  end.
Proof.
  cbv zeta. unfold written, np_savetxt.
  set (name := (os_path_split save_path).2).
  assert (<[path_in save_path name ".clu" := TextInts clu]>
            (<[path_in save_path name ".res" := TextInts res]> fs)
            !! path_in save_path name ".xml" = fs !! path_in save_path name ".xml")
    as Hfs.
  { rewrite !lookup_insert_ne; [done| |]; by apply path_in_ext_ne. }
  destruct (fs !! path_in save_path name ".xml") as [doc|] eqn:Hxml.
  - rewrite (isfile_Some _ _ doc) by exact Hfs. cbn [negb]. exact Hfs.
  - rewrite isfile_None by exact Hfs. cbn [negb].
    by rewrite lookup_insert_eq.
Qed.

Lemma written_lookup_res_clu (sorting : SortingExtractor) (save_path : string)
    (res clu : list Z) (fs : filesystem) :
  let name := (os_path_split save_path).2 in
  written sorting save_path res clu fs !! path_in save_path name ".res" =
    Some (TextInts res) ∧
  written sorting save_path res clu fs !! path_in save_path name ".clu" =
    Some (TextInts clu).
Proof.
  cbv zeta. unfold written, np_savetxt.
  set (name := (os_path_split save_path).2).
  destruct (negb _).
  - rewrite !(lookup_insert_ne _ (path_in save_path name ".xml"))
      by by apply path_in_ext_ne.
    rewrite lookup_insert_ne by by apply path_in_ext_ne.
    by rewrite !lookup_insert_eq.
  - rewrite lookup_insert_ne by by apply path_in_ext_ne.
    by rewrite !lookup_insert_eq.
Qed.

Lemma written_dom (sorting : SortingExtractor) (save_path : string)
    (res clu : list Z) (fs : filesystem) :
  let name := (os_path_split save_path).2 in
  dom (written sorting save_path res clu fs) =
  dom fs ∪ {[path_in save_path name ".res"; path_in save_path name ".clu";
             path_in save_path name ".xml"]}.
Proof.
  cbv zeta. unfold written, np_savetxt.
  set (name := (os_path_split save_path).2).
  destruct (isfile _ _) eqn:Hx; cbn [negb].
  - apply bool_decide_eq_true_1, elem_of_dom in Hx.
    rewrite !dom_insert_L in *. set_solver.
  - rewrite !dom_insert_L. set_solver.
Qed.

(** Scenario A through the files: saved to an empty folder and read back
    from the pair just written. *)
Lemma round_trip_through_files :
  let self := {| _sampling_frequency := "30000";
                 _unit_ids := Some [1; 2];
                 _spiketrains := Some [[20; 40]; [30]] |} in
  (fs ← NeuroscopeSortingExtractor.write_sorting argsort_stable
          (as_sorting self) "d/rec" ∅;
   NeuroscopeSortingExtractor.init Legacy fs (Some "d/rec/rec.res")
     (Some "d/rec/rec.clu") None true)
  = Ok self.
Proof. by vm_compute. Qed.

(** ** The XML sidecar *)

(** C9: when a sidecar already exists at the target path, the metadata
    block of write_recording leaves the file system as it is, and
    write_sorting (single and multi) returns a file system with the same
    sidecar; a further save call leaves it the same again. *)
Theorem C9_sidecar_kept (argsort : list Z → list nat)
    (recording : RecordingExtractor) (sorting sorting' : SortingExtractor)
    (save_path dtype : string) (fs : filesystem) (doc : file) :
  let save_xml := path_in save_path (os_path_split save_path).2 ".xml" in
  fs !! save_xml = Some doc →
  NeuroscopeRecordingExtractor.write_parameters recording save_xml dtype fs
    = (fs, dtype) ∧
  (∀ fs1,
     NeuroscopeSortingExtractor.write_sorting argsort sorting save_path fs = Ok fs1 →
     fs1 !! save_xml = Some doc ∧
     ∀ fs2,
       NeuroscopeSortingExtractor.write_sorting argsort sorting' save_path fs1
         = Ok fs2 →
       fs2 !! save_xml = Some doc) ∧
  (∀ fs1,
     NeuroscopeMultiSortingExtractor.write_sorting argsort sorting save_path fs
       = Ok fs1 →
     fs1 !! save_xml = Some doc).
Proof.
  intros save_xml Hdoc.
  assert (∀ s fs0 fs1,
            fs0 !! save_xml = Some doc →
            NeuroscopeSortingExtractor.write_sorting argsort s save_path fs0
              = Ok fs1 →
            fs1 !! save_xml = Some doc) as Hkeep.
  { intros s fs0 fs1 H0. rewrite write_sorting_written.
    destruct (write_arrays argsort s) as [[res clu]|]; [|done].
    intros [= <-]. unfold save_xml in *.
    by rewrite (written_lookup_xml s save_path res clu fs0), H0. }
  split; [|split].
  - unfold NeuroscopeRecordingExtractor.write_parameters.
    by rewrite (isfile_Some _ _ doc).
  - intros fs1 H1. split; [by eapply Hkeep|].
    intros fs2 H2. eapply Hkeep; [|exact H2]. by eapply Hkeep.
  - intros fs1. rewrite multi_write_sorting_eq. by apply Hkeep.
Qed.

Lemma C9_sidecar_kept_witness :
  let fs : filesystem :=
    {[ "d/rec/rec.xml" := XmlDoc [("samplingrate", "30000")] ]} in
  let sorting :=
    as_sorting {| _sampling_frequency := "20000";
                  _unit_ids := Some [1; 2];
                  _spiketrains := Some [[50; 10]; [30]] |} in
  fs !! "d/rec/rec.xml" = Some (XmlDoc [("samplingrate", "30000")]) ∧
  ∀ fs1,
    NeuroscopeSortingExtractor.write_sorting argsort_stable sorting "d/rec" fs
      = Ok fs1 →
    fs1 !! "d/rec/rec.xml" = Some (XmlDoc [("samplingrate", "30000")]).
Proof.
  intros fs sorting. split; [reflexivity|]. intros fs1 Hw.
  destruct (C9_sidecar_kept argsort_stable
              {| recording_get_dtype := "int16";
                 recording_get_channel_ids := [0];
                 recording_get_sampling_frequency := "30000";
                 recording_sampling_frequency_float := eq_refl |}
              sorting sorting "d/rec" "int16" fs
              (XmlDoc [("samplingrate", "30000")]) eq_refl) as (_ & H & _).
  exact (proj1 (H fs1 Hw)).
Defined.

(** Without a sidecar the first save writes one and a second save keeps
    it. *)
Lemma write_sorting_twice (argsort : list Z → list nat)
    (sorting sorting' : SortingExtractor) (save_path : string)
    (fs fs1 fs2 : filesystem) :
  let save_xml := path_in save_path (os_path_split save_path).2 ".xml" in
  fs !! save_xml = None →
  NeuroscopeSortingExtractor.write_sorting argsort sorting save_path fs = Ok fs1 →
  NeuroscopeSortingExtractor.write_sorting argsort sorting' save_path fs1 = Ok fs2 →
  fs1 !! save_xml =
    Some (XmlDoc [("samplingrate", sorting_get_sampling_frequency sorting)]) ∧
  fs2 !! save_xml = fs1 !! save_xml.
Proof.
  intros save_xml Hnone. rewrite !write_sorting_written.
  destruct (write_arrays argsort sorting) as [[res clu]|]; [|done].
  intros [= <-].
  destruct (write_arrays argsort sorting') as [[res' clu']|]; [|done].
  intros [= <-]. unfold save_xml in *.
  rewrite (written_lookup_xml sorting'), (written_lookup_xml sorting), Hnone.
  done.
Qed.

(** The whole of [write_recording] keeps an existing sidecar as soon as the
    binary writer does not touch that path. *)
Lemma write_recording_keeps_sidecar
    (bindat_write_recording :
       RecordingExtractor → string → string → filesystem → filesystem)
    (recording : RecordingExtractor) (save_path dtype : string)
    (fs : filesystem) (doc : file) :
  let save_xml := path_in save_path (os_path_split save_path).2 ".xml" in
  (∀ r fn d fs0, bindat_write_recording r fn d fs0 !! save_xml = fs0 !! save_xml) →
  fs !! save_xml = Some doc →
  NeuroscopeRecordingExtractor.write_recording bindat_write_recording recording
    save_path dtype fs !! save_xml = Some doc.
Proof.
  intros save_xml Hframe Hdoc.
  unfold NeuroscopeRecordingExtractor.write_recording,
    NeuroscopeRecordingExtractor.write_parameters.
  fold save_xml. rewrite (isfile_Some _ _ doc) by done. cbn [negb].
  by rewrite (Hframe _ _ _ fs).
Qed.

(** ** The empty edge *)

(** C8: with an empty res, reading assigns neither [_unit_ids] nor
    [_spiketrains], so [get_unit_ids] raises AttributeError instead of
    returning the empty list, and the object cannot be written either.
    Writing a collection without units does give an empty res file and a clu
    file holding the single row 0. *)
Theorem C8_empty_edge (era : numpy_era) (keep : bool) (sf : pyfloat)
    (clu : list Z) (argsort : list Z → list nat)
    (train : Z → result (list Z)) (save_path : string) (fs : filesystem) :
  let empty := {| sorting_get_unit_ids := Ok [];
                  sorting_get_unit_spike_train := train;
                  sorting_get_sampling_frequency := sf |} in
  let name := (os_path_split save_path).2 in
  (∃ self,
     read_pair era keep sf [] clu = Ok self ∧
     _unit_ids self = None ∧
     get_unit_ids self = Raise AttributeError ∧
     write_arrays argsort (as_sorting self) = Raise AttributeError) ∧
  write_arrays argsort empty = Ok ([], [0]) ∧
  ∃ fs',
    NeuroscopeSortingExtractor.write_sorting argsort empty save_path fs = Ok fs' ∧
    fs' !! path_in save_path name ".res" = Some (TextInts []) ∧
    fs' !! path_in save_path name ".clu" = Some (TextInts [0]).
Proof.
  intros empty name. split; [|split].
  - eexists. by repeat split.
  - done.
  - rewrite write_sorting_written.
    assert (write_arrays argsort empty = Ok ([], [0])) as -> by done.
    rewrite bind_Ok. eexists. split; [done|].
    apply written_lookup_res_clu.
Qed.

(** Reading through the files: an empty res file next to a sidecar. *)
Lemma init_pair_empty_res (era : numpy_era) (keep : bool) :
  let fs : filesystem :=
    {[ "d/rec/rec.xml" := XmlDoc [("samplingrate", "30000")];
       "d/rec/rec.res" := TextInts [];
       "d/rec/rec.clu" := TextInts [0] ]} in
  get_unit_ids <$>
    NeuroscopeSortingExtractor.init era fs (Some "d/rec/rec.res")
      (Some "d/rec/rec.clu") None keep
  = Ok (Raise AttributeError).
Proof. by destruct era, keep. Qed.

(** ** The multi-shank writer *)

(** C7: write_sorting of the multi-shank extractor is the single-pair
    writer, run once: whatever the sorting it is given, it writes the one
    pair NAME.res / NAME.clu (and the sidecar) and no other path, hence no
    NAME.res.N / NAME.clu.N pair. *)
Theorem C7_multi_writes_one_pair (argsort : list Z → list nat)
    (sorting : SortingExtractor) (save_path : string) (fs : filesystem) :
  let name := (os_path_split save_path).2 in
  NeuroscopeMultiSortingExtractor.write_sorting argsort sorting save_path fs =
  NeuroscopeSortingExtractor.write_sorting argsort sorting save_path fs ∧
  match NeuroscopeMultiSortingExtractor.write_sorting argsort sorting save_path fs
  with
  | Ok fs' =>
      dom fs' = dom fs ∪ {[path_in save_path name ".res";
                            path_in save_path name ".clu";
                            path_in save_path name ".xml"]}
  | Raise _ => True
  end.
Proof.
  intros name. split; [apply multi_write_sorting_eq|].
  rewrite multi_write_sorting_eq, write_sorting_written.
  destruct (write_arrays argsort sorting) as [[res clu]|]; [|done].
  rewrite bind_Ok. apply written_dom.
Qed.

(** Four units, as a two-shank sorting with two units per shank presents
    them, saved to an empty folder: one pair and the sidecar. *)
Lemma multi_write_sorting_example :
  map_to_list <$>
    NeuroscopeMultiSortingExtractor.write_sorting argsort_stable
      {| sorting_get_unit_ids := Ok [0; 1; 2; 3];
         sorting_get_unit_spike_train := λ u,
           Ok (default [] ([[20; 40]; [30]; [25]; [35; 45]] !! Z.to_nat u));
         sorting_get_sampling_frequency := "30000" |}
      "d/rec" ∅
  = Ok [("d/rec/rec.clu", TextInts [4; 1; 3; 2; 4; 1; 4]);
        ("d/rec/rec.res", TextInts [20; 25; 30; 35; 40; 45]);
        ("d/rec/rec.xml", XmlDoc [("samplingrate", "30000")])].
Proof. reflexivity. Qed.

(** ** Excluded shanks *)

(** [exclude_shanks] only reaches [_kwargs]. *)
Lemma init_ignores_exclude_shanks (era : numpy_era) (fs : filesystem)
    (folder_path : string) (keep : bool) (e1 e2 : option (list Z)) :
  NeuroscopeMultiSortingExtractor.sortings <$>
    NeuroscopeMultiSortingExtractor.init era fs folder_path keep e1 =
  NeuroscopeMultiSortingExtractor.sortings <$>
    NeuroscopeMultiSortingExtractor.init era fs folder_path keep e2.
Proof.
  unfold NeuroscopeMultiSortingExtractor.init.
  destruct (read_samplingrate _ _); [|done]. rewrite !bind_Ok.
  destruct (negb _); [done|]. destruct (negb _); [done|].
  destruct (mapM _ _); done.
Qed.

(** C6: shanks named in exclude_shanks are to be left out before
    aggregation.  On a folder with shanks 1 and 2 and exclude_shanks = [1],
    the constructor still builds an extractor from rec.res.1 / rec.clu.1 and
    returns the collections of both shanks, the same as without any
    exclusion. *)
Theorem C6_exclude_shanks_ignored :
  NeuroscopeMultiSortingExtractor.shank_paths "d/rec"
    (NeuroscopeMultiSortingExtractor.shank_ids "res" (onlyfiles two_shanks "d/rec"))
  = [("d/rec/rec.res.1", "d/rec/rec.clu.1");
     ("d/rec/rec.res.2", "d/rec/rec.clu.2")] ∧
  NeuroscopeMultiSortingExtractor.init Legacy two_shanks "d/rec" true (Some [1])
  = Ok {| NeuroscopeMultiSortingExtractor._sampling_frequency := "30000";
          NeuroscopeMultiSortingExtractor.sortings :=
            [ {| _sampling_frequency := "30000";
                 _unit_ids := Some [1; 2];
                 _spiketrains := Some [[20; 40]; [30]] |};
              {| _sampling_frequency := "30000";
                 _unit_ids := Some [1; 2];
                 _spiketrains := Some [[25]; [35; 45]] |} ];
          NeuroscopeMultiSortingExtractor._kwargs_exclude_shanks := Some [1] |} ∧
  NeuroscopeMultiSortingExtractor.sortings <$>
    NeuroscopeMultiSortingExtractor.init Legacy two_shanks "d/rec" true (Some [1])
  = NeuroscopeMultiSortingExtractor.sortings <$>
      NeuroscopeMultiSortingExtractor.init Legacy two_shanks "d/rec" true None.
Proof. by vm_compute. Qed.

(** * Further properties of the module *)

(** ** Looking up a unit *)

Lemma py_index_absent (x : Z) (l : list Z) :
  x ∉ l → py_index x l = Raise ValueError.
Proof.
  induction l as [|y l IH]; intros Hx; [done|].
  apply not_elem_of_cons in Hx as [Hne Hx]. simpl.
  destruct (Z.eqb_spec y x) as [->|_]; [done|]. by rewrite IH.
Qed.

Lemma py_index_first (x : Z) (l : list Z) (i : nat) :
  l !! i = Some x →
  (∀ j, (j < i)%nat → l !! j ≠ Some x) →
  py_index x l = Ok i.
Proof.
  revert i. induction l as [|y l IH]; intros i Hi Hfirst; [done|].
  simpl. destruct (Z.eqb_spec y x) as [->|Hne].
  - destruct i as [|i]; [done|]. by destruct (Hfirst 0%nat ltac:(lia)).
  - destruct i as [|i]; [simpl in Hi; congruence|].
    rewrite (IH i); [done|done|].
    intros j Hj. apply (Hfirst (S j)). lia.
Qed.

Lemma py_index_present (x : Z) (l : list Z) :
  x ∈ l →
  ∃ i, py_index x l = Ok i ∧ l !! i = Some x ∧
       ∀ j, (j < i)%nat → l !! j ≠ Some x.
Proof.
  induction l as [|y l IH]; intros Hx; [by apply elem_of_nil in Hx|].
  simpl. destruct (Z.eqb_spec y x) as [->|Hne].
  - exists 0%nat. split; [done|]. split; [done|]. lia.
  - apply elem_of_cons in Hx as [->|Hx]; [done|].
    destruct (IH Hx) as (i & -> & Hi & Hfirst). exists (S i).
    split; [done|]. split; [done|].
    intros [|j] Hj; simpl; [congruence|]. apply Hfirst. lia.
Qed.

Lemma py_index_app_l (x : Z) (l k : list Z) :
  x ∈ l → py_index x (l ++ k) = py_index x l.
Proof.
  induction l as [|y l IH]; intros Hx; [by apply elem_of_nil in Hx|].
  simpl. destruct (Z.eqb_spec y x) as [->|Hne]; [done|].
  apply elem_of_cons in Hx as [->|Hx]; [done|]. by rewrite IH.
Qed.

Lemma py_index_app_r (x : Z) (l k : list Z) :
  x ∉ l → py_index x (l ++ k) = (λ i, length l + i)%nat <$> py_index x k.
Proof.
  induction l as [|y l IH]; intros Hx; simpl.
  - by destruct (py_index x k).
  - apply not_elem_of_cons in Hx as [Hne Hx].
    destruct (Z.eqb_spec y x) as [->|_]; [done|].
    rewrite IH by done. by destruct (py_index x k).
Qed.

Lemma py_index_shift (x shift : Z) (l : list Z) :
  py_index (x + shift) ((λ y, y + shift) <$> l) = py_index x l.
Proof.
  induction l as [|y l IH]; [done|]. rewrite fmap_cons. simpl.
  destruct (Z.eqb_spec (y + shift) (x + shift)), (Z.eqb_spec y x);
    try lia; [done|]. by rewrite IH.
Qed.

(** What [get_unit_spike_train] computes once both attributes are there. *)
Lemma get_unit_spike_train_eq (self : t) (ids : list Z) (sts : list (list Z))
    (u : Z) (s e : option Z) :
  _unit_ids self = Some ids →
  _spiketrains self = Some sts →
  get_unit_spike_train self u s e =
  i ← py_index u ids;
  times ← match sts !! i with Some st => Ok st | None => Raise IndexError end;
  mret (filter (in_frames (default 0 s) e) times).
Proof.
  intros Hids Hsts. unfold get_unit_spike_train, get_unit_ids.
  by rewrite Hids, Hsts.
Qed.

(** X1: a unit id that is not listed is rejected with ValueError, whatever
    the frames asked for. *)
Theorem get_unit_spike_train_unknown (self : t) (ids : list Z)
    (sts : list (list Z)) (u : Z) (s e : option Z) :
  _unit_ids self = Some ids →
  _spiketrains self = Some sts →
  u ∉ ids →
  get_unit_spike_train self u s e = Raise ValueError.
Proof.
  intros Hids Hsts Hu.
  rewrite (get_unit_spike_train_eq self ids sts) by done.
  by rewrite py_index_absent.
Qed.

Lemma get_unit_spike_train_unknown_witness :
  get_unit_spike_train
    {| _sampling_frequency := "30000"; _unit_ids := Some [1; 2];
       _spiketrains := Some [[20; 40]; [30]] |} 5 None None
  = Raise ValueError.
Proof.
  apply (get_unit_spike_train_unknown _ [1; 2] [[20; 40]; [30]]);
    [reflexivity|reflexivity|].
  intros H. repeat (apply elem_of_cons in H as [H|H]; [discriminate H|]).
  by apply elem_of_nil in H.
Defined.

(** X2: a listed unit id gives a train, and asking for the frames
    [start, mid) and [mid, end) separately gives, together, the spikes of
    [start, end): none is lost or returned twice. *)
Theorem get_unit_spike_train_split (self : t) (ids : list Z)
    (sts : list (list Z)) (u start mid stop : Z) :
  _unit_ids self = Some ids →
  _spiketrains self = Some sts →
  length sts = length ids →
  u ∈ ids →
  start ≤ mid ≤ stop →
  ∃ whole left right,
    get_unit_spike_train self u (Some start) (Some stop) = Ok whole ∧
    get_unit_spike_train self u (Some start) (Some mid) = Ok left ∧
    get_unit_spike_train self u (Some mid) (Some stop) = Ok right ∧
    left ++ right ≡ₚ whole.
Proof.
  intros Hids Hsts Hlen Hu Hmid.
  rewrite !(get_unit_spike_train_eq self ids sts) by done.
  destruct (py_index_present u ids Hu) as (i & -> & Hi & _).
  rewrite !bind_Ok.
  destruct (lookup_lt_is_Some_2 sts i) as [st ->].
  { rewrite Hlen. by eapply lookup_lt_Some. }
  rewrite !bind_Ok.
  eexists _, _, _. split; [done|]. split; [done|]. split; [done|].
  simpl. clear -Hmid.
  induction st as [|x st IH]; [done|].
  rewrite !filter_cons.
  destruct (decide (in_frames start (Some stop) x)) as [Hw|Hw],
           (decide (in_frames start (Some mid) x)) as [Hl|Hl],
           (decide (in_frames mid (Some stop) x)) as [Hr|Hr];
    unfold in_frames in *; try lia.
  - simpl. by rewrite IH.
  - rewrite <- Permutation_middle. by rewrite IH.
  - exact IH.
Qed.

Lemma get_unit_spike_train_split_witness :
  ∃ whole left right,
    get_unit_spike_train
      {| _sampling_frequency := "30000"; _unit_ids := Some [1; 2];
         _spiketrains := Some [[20; 40]; [30]] |} 1 (Some 0) (Some 50) = Ok whole ∧
    get_unit_spike_train
      {| _sampling_frequency := "30000"; _unit_ids := Some [1; 2];
         _spiketrains := Some [[20; 40]; [30]] |} 1 (Some 0) (Some 30) = Ok left ∧
    get_unit_spike_train
      {| _sampling_frequency := "30000"; _unit_ids := Some [1; 2];
         _spiketrains := Some [[20; 40]; [30]] |} 1 (Some 30) (Some 50) = Ok right ∧
    left ++ right ≡ₚ whole.
Proof.
  apply (get_unit_spike_train_split _ [1; 2] [[20; 40]; [30]]);
    [reflexivity|reflexivity|reflexivity| |lia].
  apply elem_of_cons. by left.
Defined.

(** ** Adding units and shifting ids *)

(** X3: reading a non-empty res leaves the ids and the trains aligned,
    position by position, and add_unit and shift_unit_ids keep them so; on
    an aligned extractor neither of the two raises. *)
Theorem aligned_invariant :
  (∀ era keep sf res clu self,
     res ≠ [] → read_pair era keep sf res clu = Ok self → aligned self) ∧
  (∀ self unit_id spike_times,
     aligned self →
     ∃ self', add_unit self unit_id spike_times = Ok self' ∧ aligned self') ∧
  (∀ self shift,
     aligned self →
     ∃ self', shift_unit_ids self shift = Ok self' ∧ aligned self').
Proof.
  split; [|split].
  - intros era keep sf res clu self Hres Hread.
    destruct (read_pair_unit_ids era keep sf res clu self Hres Hread)
      as (ids & sts & Hids & Hsts & _ & Hlen).
    by exists ids, sts.
  - intros self u st (ids & sts & Hids & Hsts & Hlen).
    unfold add_unit. rewrite Hids, Hsts. eexists. split; [done|].
    exists (ids ++ [u]), (sts ++ [st]). simpl.
    split; [done|]. split; [done|]. rewrite !length_app. simpl. lia.
  - intros self k (ids & sts & Hids & Hsts & Hlen).
    unfold shift_unit_ids. rewrite Hids. eexists. split; [done|].
    exists ((λ x, x + k) <$> ids), sts. simpl.
    split; [done|]. split; [done|]. by rewrite length_fmap.
Qed.

Lemma aligned_invariant_witness :
  aligned {| _sampling_frequency := "30000"; _unit_ids := Some [1; 2];
             _spiketrains := Some [[20; 40]; [30]] |} ∧
  ∃ self',
    add_unit {| _sampling_frequency := "30000"; _unit_ids := Some [1; 2];
                _spiketrains := Some [[20; 40]; [30]] |} 7 [5] = Ok self' ∧
    aligned self'.
Proof.
  destruct aligned_invariant as (Hread & Hadd & _).
  assert (aligned {| _sampling_frequency := "30000"; _unit_ids := Some [1; 2];
                     _spiketrains := Some [[20; 40]; [30]] |}) as Ha.
  { apply (Hread Legacy true "30000" [10; 20; 30; 40] [3; 0; 1; 2; 1]);
      [discriminate|reflexivity]. }
  split; [exact Ha|]. apply Hadd, Ha.
Defined.

(** X4: after add_unit(u, spikes) on an aligned extractor, every id that
    was listed before still gives the train it gave before, and u gives the
    new spikes only if it was not listed: the spikes added under an id that
    is already there cannot be reached. *)
Theorem add_unit_lookup (self self' : t) (ids : list Z) (sts : list (list Z))
    (u : Z) (spikes : list Z) (v : Z) (s e : option Z) :
  _unit_ids self = Some ids →
  _spiketrains self = Some sts →
  length sts = length ids →
  add_unit self u spikes = Ok self' →
  get_unit_ids self' = Ok (ids ++ [u]) ∧
  (v ∈ ids →
   get_unit_spike_train self' v s e = get_unit_spike_train self v s e) ∧
  (u ∉ ids →
   get_unit_spike_train self' u s e =
   Ok (filter (in_frames (default 0 s) e) spikes)).
Proof.
  intros Hids Hsts Hlen. unfold add_unit. rewrite Hids, Hsts.
  intros [= <-]. split; [done|]. split.
  - intros Hv.
    rewrite (get_unit_spike_train_eq _ (ids ++ [u]) (sts ++ [spikes])) by done.
    rewrite (get_unit_spike_train_eq self ids sts) by done.
    rewrite py_index_app_l by done.
    destruct (py_index_present v ids Hv) as (i & -> & Hi & _).
    rewrite !bind_Ok. rewrite lookup_app_l; [done|].
    rewrite Hlen. by eapply lookup_lt_Some.
  - intros Hu.
    rewrite (get_unit_spike_train_eq _ (ids ++ [u]) (sts ++ [spikes])) by done.
    rewrite py_index_app_r by done. simpl. rewrite Z.eqb_refl. simpl.
    rewrite Nat.add_0_r, <- Hlen.
    rewrite lookup_app_r by lia. by rewrite Nat.sub_diag.
Qed.

Lemma add_unit_lookup_witness :
  ∃ self',
    add_unit {| _sampling_frequency := "30000"; _unit_ids := Some [1; 2];
                _spiketrains := Some [[20; 40]; [30]] |} 1 [5; 6] = Ok self' ∧
    get_unit_ids self' = Ok [1; 2; 1] ∧
    get_unit_spike_train self' 1 None None = Ok [20; 40].
Proof.
  eexists. split; [reflexivity|].
  destruct (add_unit_lookup
              {| _sampling_frequency := "30000"; _unit_ids := Some [1; 2];
                 _spiketrains := Some [[20; 40]; [30]] |}
              _ [1; 2] [[20; 40]; [30]] 1 [5; 6] 1 None None
              eq_refl eq_refl eq_refl eq_refl) as (Hids & Hold & _).
  split; [exact Hids|]. rewrite Hold; [reflexivity|].
  apply elem_of_cons. by left.
Defined.

(** X5: shift_unit_ids(k) moves every unit to its id plus k: the train of
    u + k afterwards is the train of u before. *)
Theorem shift_unit_ids_lookup (self self' : t) (ids : list Z)
    (sts : list (list Z)) (k u : Z) (s e : option Z) :
  _unit_ids self = Some ids →
  _spiketrains self = Some sts →
  shift_unit_ids self k = Ok self' →
  get_unit_spike_train self' (u + k) s e = get_unit_spike_train self u s e.
Proof.
  intros Hids Hsts. unfold shift_unit_ids. rewrite Hids. intros [= <-].
  rewrite (get_unit_spike_train_eq _ ((λ x, x + k) <$> ids) sts) by done.
  rewrite (get_unit_spike_train_eq self ids sts) by done.
  by rewrite py_index_shift.
Qed.

Lemma shift_unit_ids_lookup_witness :
  ∃ self',
    shift_unit_ids {| _sampling_frequency := "30000"; _unit_ids := Some [1; 2];
                      _spiketrains := Some [[20; 40]; [30]] |} 10 = Ok self' ∧
    get_unit_spike_train self' (2 + 10) None None = Ok [30].
Proof.
  eexists. split; [reflexivity|].
  rewrite (shift_unit_ids_lookup
             {| _sampling_frequency := "30000"; _unit_ids := Some [1; 2];
                _spiketrains := Some [[20; 40]; [30]] |}
             _ [1; 2] [[20; 40]; [30]] 10 2 None None eq_refl eq_refl eq_refl).
  reflexivity.
Defined.

(** X6: two shifts compose to the shift by the sum, and a shift by 0
    changes nothing; so shifting by k and then by -k restores the
    extractor. *)
Theorem shift_unit_ids_compose (self : t) (ids : list Z) (a b : Z) :
  _unit_ids self = Some ids →
  (self1 ← shift_unit_ids self a; shift_unit_ids self1 b)
    = shift_unit_ids self (a + b) ∧
  shift_unit_ids self 0 = Ok self ∧
  (self1 ← shift_unit_ids self a; shift_unit_ids self1 (- a)) = Ok self.
Proof.
  intros Hids.
  assert (∀ x y, (self1 ← shift_unit_ids self x; shift_unit_ids self1 y)
                 = shift_unit_ids self (x + y)) as Hcomp.
  { intros x y. unfold shift_unit_ids. rewrite Hids. simpl.
    rewrite <- list_fmap_compose. do 3 f_equal.
    apply list_fmap_ext. intros _ z _. simpl. lia. }
  assert (shift_unit_ids self 0 = Ok self) as Hzero.
  { unfold shift_unit_ids. rewrite Hids. simpl. destruct self as [sf i st].
    simpl in *. subst i. do 3 f_equal.
    rewrite <- (list_fmap_id ids) at 2.
    apply list_fmap_ext. intros _ z _. simpl. lia. }
  split; [apply Hcomp|]. split; [exact Hzero|].
  rewrite Hcomp. by replace (a + - a) with 0 by lia.
Qed.

Lemma shift_unit_ids_compose_witness :
  (self1 ← shift_unit_ids {| _sampling_frequency := "30000";
                             _unit_ids := Some [1; 2];
                             _spiketrains := Some [[20; 40]; [30]] |} 10;
   shift_unit_ids self1 (- 10))
  = Ok {| _sampling_frequency := "30000"; _unit_ids := Some [1; 2];
          _spiketrains := Some [[20; 40]; [30]] |}.
Proof.
  exact (proj2 (proj2 (shift_unit_ids_compose
                         {| _sampling_frequency := "30000";
                            _unit_ids := Some [1; 2];
                            _spiketrains := Some [[20; 40]; [30]] |}
                         [1; 2] 10 (- 10) eq_refl))).
Defined.

(** ** More on reading a pair *)

Lemma np_arange_singleton (m a : Z) : np_arange m = [a] → m = 1 ∧ a = 0.
Proof.
  unfold np_arange. intros H.
  assert (Z.to_nat m = 1%nat) as Hm.
  { apply (f_equal length) in H. by rewrite length_seqZ in H. }
  assert (m = 1) as -> by lia. split; [done|].
  vm_compute in H. by injection H.
Qed.

(** What a successful adjustment returns. *)
Lemma adjust_n_clu_Ok_inv (era : numpy_era) (n_clu : Z) (unique_ids : list Z)
    (n : Z) :
  adjust_n_clu era n_clu unique_ids = Ok n →
  (unique_ids = [0] ∧ n_clu = 0 ∧ n = 0) ∨
  n = n_clu + (if np_in 0 unique_ids then 0 else 1)
            + (if np_in 1 unique_ids then 0 else 1).
Proof.
  unfold adjust_n_clu.
  destruct (np_eq era unique_ids (np_arange (n_clu + 1))) as [c|] eqn:Heq;
    [|done].
  rewrite bind_Ok.
  destruct (py_truth c) as [[|]|] eqn:Ht; [| |done]; rewrite bind_Ok;
    intros [= <-].
  - left. destruct c as [b|[|b [|b' bs]]]; simpl in Ht; try done.
    + injection Ht as ->. exfalso. unfold np_eq in Heq.
      destruct unique_ids as [|x [|y u]];
        destruct (np_arange (n_clu + 1)) as [|a [|a' r]];
        try done; destruct (decide _), era; done.
    + injection Ht as ->. unfold np_eq in Heq.
      destruct unique_ids as [|x [|y u]].
      * destruct (np_arange (n_clu + 1)) as [|a [|a' r]]; try done.
        by destruct (decide _), era.
      * destruct (np_arange (n_clu + 1)) as [|a [|a' r]] eqn:Hr; try done.
        apply np_arange_singleton in Hr as [Hn ->].
        injection Heq as Hx. apply Z.eqb_eq in Hx as ->.
        split; [done|]. split; lia.
      * destruct (np_arange (n_clu + 1)) as [|a [|a' r]]; try done;
          by destruct (decide _), era.
  - right. simpl.
    destruct (np_in 0 unique_ids), (np_in 1 unique_ids); simpl; lia.
Qed.

(** X7: whenever the count adjustment does not raise, it adds one for each
    of the ids 0 and 1 that is absent, with the single exception of a file
    that declares 0 clusters and whose only id is 0, which is left at 0. *)
Theorem adjust_n_clu_result (era : numpy_era) (n_clu : Z) (unique_ids : list Z)
    (n : Z) :
  adjust_n_clu era n_clu unique_ids = Ok n →
  (unique_ids = [0] ∧ n_clu = 0 ∧ n = 0) ∨
  n = n_clu + (if np_in 0 unique_ids then 0 else 1)
            + (if np_in 1 unique_ids then 0 else 1).
Proof. exact (adjust_n_clu_Ok_inv era n_clu unique_ids n). Qed.

Lemma adjust_n_clu_result_witness :
  adjust_n_clu Legacy 3 (np_unique [2; 3; 4]) = Ok 5.
Proof.
  destruct (adjust_n_clu_result Legacy 3 (np_unique [2; 3; 4]) 5 eq_refl)
    as [(H & _)|_]; [discriminate H|reflexivity].
Defined.

(** Under the strict rule the adjustment goes through only when the clu body
    has at most one distinct id and the declared count is at most 0. *)
Lemma adjust_n_clu_strict (n_clu : Z) (unique_ids : list Z) (n : Z) :
  adjust_n_clu Strict n_clu unique_ids = Ok n →
  (length unique_ids ≤ 1)%nat ∧ n_clu ≤ 0.
Proof.
  unfold adjust_n_clu, np_eq.
  destruct unique_ids as [|x [|y u]];
    destruct (np_arange (n_clu + 1)) as [|a [|a' r]] eqn:Hr; simpl;
    try done;
    try (destruct (decide _); try done);
    intros _; (split; [simpl; lia|]);
    apply (f_equal length) in Hr; unfold np_arange in Hr;
    rewrite length_seqZ in Hr; simpl in Hr; lia.
Qed.

Lemma aligned_spikes_absent (res clu : list Z) (k : Z) :
  k ∉ clu → aligned_spikes res clu k = [].
Proof.
  revert res. induction clu as [|c clu IH]; intros res Hk.
  - by destruct res.
  - apply not_elem_of_cons in Hk as [Hne Hk]. destruct res as [|r res]; [done|].
    rewrite aligned_spikes_cons, decide_False by done. by apply IH.
Qed.

(** X8: under the comparison rule of NumPy 1.25 and later, a read that
    succeeds returns no spike at all: every train of the extractor it builds
    is empty. *)
Theorem read_pair_strict_no_spike (keep : bool) (sf : pyfloat)
    (res clu : list Z) (self : t) (sts : list (list Z)) :
  read_pair Strict keep sf res clu = Ok self →
  _spiketrains self = Some sts →
  Forall (λ st, st = []) sts.
Proof.
  intros Hread Hsts.
  destruct res as [|r res].
  { unfold read_pair in Hread. simpl in Hread. injection Hread as <-. done. }
  destruct clu as [|n_clu clu]; [done|].
  rewrite read_pair_nonempty in Hread by done.
  destruct (adjust_n_clu Strict n_clu (np_unique clu)) as [n|] eqn:Hadj; [|done].
  rewrite bind_Ok in Hread.
  destruct (adjust_n_clu_strict _ _ _ Hadj) as [Hlen Hn].
  assert (n ≤ 2 ∧ (n = 2 → 1 ∉ clu)) as [Hn2 H1].
  { destruct (adjust_n_clu_Ok_inv _ _ _ _ Hadj) as [(_ & _ & ->) | ->]; [lia|].
    unfold np_in.
    destruct (bool_decide (0 ∈ np_unique clu));
      destruct (bool_decide (1 ∈ np_unique clu)) eqn:H1; split; try lia.
    intros _. apply bool_decide_eq_false_1 in H1.
    by rewrite elem_of_np_unique in H1. }
  destruct (select_units_cases keep n (r :: res) clu) as [[Hs _]|[Hs _]];
    rewrite Hs in Hread; [done|].
  destruct keep; unfold selected in Hread; rewrite bind_Ok in Hread;
    injection Hread as <-; simpl in Hsts; injection Hsts as <-.
  - apply Forall_fmap, Forall_forall. intros k Hk. simpl.
    apply elem_of_seqZ in Hk. apply aligned_spikes_absent.
    replace k with 1 by lia. apply H1. lia.
  - rewrite seqZ_nil by lia. constructor.
Qed.

Lemma read_pair_strict_no_spike_witness :
  Forall (λ st : list Z, st = []) [[]].
Proof.
  apply (read_pair_strict_no_spike true "30000" [10; 20] [0; 2; 2]
           {| _sampling_frequency := "30000"; _unit_ids := Some [1];
              _spiketrains := Some [[]] |});
    reflexivity.
Defined.

Lemma filter_disjoint_union {A} (P Q R : A → Prop)
    `{∀ x, Decision (P x)} `{∀ x, Decision (Q x)} `{∀ x, Decision (R x)}
    (l : list A) :
  (∀ x, R x ↔ P x ∨ Q x) →
  (∀ x, P x → Q x → False) →
  filter P l ++ filter Q l ≡ₚ filter R l.
Proof.
  intros HR Hdis. induction l as [|x l IH]; [done|].
  rewrite !filter_cons.
  destruct (decide (P x)) as [HP|HP], (decide (Q x)) as [HQ|HQ],
    (decide (R x)) as [Hr|Hr];
    try (by destruct (Hdis x));
    try (exfalso; apply Hr, HR; tauto);
    try (exfalso; apply HR in Hr; tauto).
  - simpl. by rewrite IH.
  - by rewrite <- Permutation_middle, IH.
  - done.
Qed.

Lemma aligned_spikes_range (res clu : list Z) (a : Z) (len : nat) :
  concat (aligned_spikes res clu <$> seqZ a (Z.of_nat len)) ≡ₚ
  (filter (λ p : Z * Z, a ≤ p.2 < a + Z.of_nat len) (zip res clu)).*1.
Proof.
  induction len as [|len IH].
  - simpl. rewrite (list_filter_iff _ (λ _, False)) by (intros; lia).
    by induction (zip res clu).
  - rewrite seqZ_S, fmap_app, concat_app, IH. simpl. rewrite app_nil_r.
    unfold aligned_spikes. rewrite <- fmap_app.
    apply fmap_Permutation, filter_disjoint_union; intros [x k]; simpl; lia.
Qed.

(** X9: the units a successful read returns hold, together, exactly the res
    values aligned with a retained cluster id, each of them once: nothing
    is duplicated, and what is left out is what carries a cluster id that is
    not retained. *)
Theorem read_pair_conserves_spikes (era : numpy_era) (keep : bool) (sf : pyfloat)
    (res : list Z) (n_clu : Z) (clu : list Z) (self : t) :
  res ≠ [] →
  read_pair era keep sf res (n_clu :: clu) = Ok self →
  ∃ n sts,
    adjust_n_clu era n_clu (np_unique clu) = Ok n ∧
    _spiketrains self = Some sts ∧
    concat sts ≡ₚ (filter (λ p, retained keep n p.2) (zip res clu)).*1.
Proof.
  intros Hres. rewrite read_pair_nonempty by done.
  destruct (adjust_n_clu era n_clu (np_unique clu)) as [n|]; [|done].
  rewrite bind_Ok.
  destruct (select_units_cases keep n res clu) as [[-> _]|[-> _]]; [done|].
  destruct keep; unfold selected; rewrite bind_Ok; intros [= <-];
    exists n; eexists; (split; [done|]); (split; [done|]).
  - destruct (decide (0 ≤ n - 1)) as [Hn|Hn].
    + rewrite <- (Z2Nat.id (n - 1)) at 1 by done.
      rewrite aligned_spikes_range.
      apply fmap_Permutation. rewrite Z2Nat.id by done.
      rewrite (list_filter_iff (λ p : Z * Z, 1 ≤ p.2 < 1 + (n - 1))
                 (λ p : Z * Z, retained true n p.2)); [done|].
      intros [x k]. unfold retained. simpl. lia.
    + rewrite seqZ_nil by lia. simpl.
      rewrite (list_filter_iff _ (λ _, False)).
      * by induction (zip res clu).
      * intros [x k]. unfold retained. simpl. lia.
  - assert ((λ j, aligned_spikes res clu (j + 1)) <$> seqZ 1 (n - 2)
            = aligned_spikes res clu <$> seqZ 2 (n - 2)) as ->.
    { change (seqZ 2 (n - 2)) with (seqZ (1 + 1) (n - 2)).
      rewrite <- fmap_add_seqZ, <- list_fmap_compose.
      apply list_fmap_ext. intros _ j _. simpl. f_equal. lia. }
    destruct (decide (0 ≤ n - 2)) as [Hn|Hn].
    + rewrite <- (Z2Nat.id (n - 2)) at 1 by done.
      rewrite aligned_spikes_range.
      apply fmap_Permutation. rewrite Z2Nat.id by done.
      rewrite (list_filter_iff (λ p : Z * Z, 2 ≤ p.2 < 2 + (n - 2))
                 (λ p : Z * Z, retained false n p.2)); [done|].
      intros [x k]. unfold retained. simpl. lia.
    + rewrite seqZ_nil by lia. simpl.
      rewrite (list_filter_iff _ (λ _, False)).
      * by induction (zip res clu).
      * intros [x k]. unfold retained. simpl. lia.
Qed.

Lemma read_pair_conserves_spikes_witness :
  ∃ n sts,
    adjust_n_clu Legacy 3 (np_unique [0; 1; 2; 1]) = Ok n ∧
    Some [[20; 40]; [30]] = Some sts ∧
    concat sts ≡ₚ
      (filter (λ p, retained true n p.2) (zip [10; 20; 30; 40] [0; 1; 2; 1])).*1.
Proof.
  apply (read_pair_conserves_spikes Legacy true "30000" [10; 20; 30; 40] 3
           [0; 1; 2; 1]
           {| _sampling_frequency := "30000"; _unit_ids := Some [1; 2];
              _spiketrains := Some [[20; 40]; [30]] |});
    [discriminate|reflexivity].
Defined.

(** ** More on what is written *)

Lemma length_filter_positions {A} (P : A → Prop) `{∀ x, Decision (P x)}
    (d : A) (l : list A) :
  length (filter (λ i, P (default d (l !! i))) (seq 0 (length l))) =
  length (filter P l).
Proof.
  transitivity
    (length (filter P ((λ i, id (default d (l !! i))) <$> seq 0 (length l)))).
  - rewrite (filter_fmap_comm (λ i, id (default d (l !! i))) P).
    by rewrite length_fmap.
  - by rewrite (fmap_lookup_seq id d l), list_fmap_id.
Qed.

(** The distinct labels written are those of the trains that have a
    spike. *)
Lemma np_unique_labels (sts : list (list Z)) (clu : list Z) :
  clu ≡ₚ labels_of sts →
  np_unique clu =
  (λ i : nat, Z.of_nat i + 1) <$>
    filter (λ i, default [] (sts !! i) ≠ []) (seq 0 (length sts)).
Proof.
  intros Hclu. apply np_unique_eq.
  - apply (StronglySorted_fmap _ lt); [lia|].
    apply StronglySorted_filter, StronglySorted_lt_seq.
  - intros x. rewrite Hclu, elem_of_labels_of, list_elem_of_fmap. split.
    + intros (i & -> & Hi). apply list_elem_of_filter in Hi as [Hne Hi].
      apply elem_of_seq in Hi.
      destruct (lookup_lt_is_Some_2 sts i) as [st Hst]; [lia|].
      rewrite Hst in Hne. by exists i, st.
    + intros (i & st & Hst & Hne & ->). exists i. split; [done|].
      apply list_elem_of_filter. rewrite Hst. split; [done|].
      apply elem_of_seq. apply lookup_lt_Some in Hst. lia.
Qed.

(** X10: for a collection with at least one unit, the clu header written is
    the number of units that have at least one spike (not the number of
    units), the body has one label per spike written, and every label lies
    between 1 and the number of units. *)
Theorem write_arrays_header (argsort : list Z → list nat)
    (sorting : SortingExtractor) (unit_ids : list Z) (spiketrains : list (list Z)) :
  argsort_contract argsort →
  sorting_get_unit_ids sorting = Ok unit_ids →
  unit_ids ≠ [] →
  mapM (sorting_get_unit_spike_train sorting) unit_ids = Ok spiketrains →
  ∃ res clu,
    write_arrays argsort sorting =
      Ok (res, Z.of_nat (length (filter (λ st, st ≠ []) spiketrains)) :: clu) ∧
    length res = length (concat spiketrains) ∧
    length clu = length res ∧
    Forall (λ l, 1 ≤ l ≤ Z.of_nat (length unit_ids)) clu.
Proof.
  intros Hc Hids Hne Hsts.
  pose proof (write_arrays_nonempty argsort sorting unit_ids spiketrains
                Hc Hids Hne Hsts) as Hw. simpl in Hw.
  destruct (Hc (np_concatenate spiketrains)) as [Hp _].
  assert (key_at (labels_of spiketrains) <$> argsort (np_concatenate spiketrains)
          ≡ₚ labels_of spiketrains) as Hclu.
  { apply permuted_keys. by rewrite length_labels_of. }
  assert (length spiketrains = length unit_ids) as Hlen.
  { clear -Hsts. revert spiketrains Hsts.
    induction unit_ids as [|u ids IH]; intros sts; simpl.
    - by intros [= <-].
    - destruct (sorting_get_unit_spike_train sorting u); [|done]. simpl.
      destruct (mapM _ ids) as [k|]; [|done]. simpl.
      intros [= <-]. simpl. f_equal. by apply IH. }
  eexists _, _. split; [|split; [|split]].
  - rewrite Hw, (np_unique_labels spiketrains) by done.
    rewrite length_fmap.
    by rewrite <- (length_filter_positions (λ st : list Z, st ≠ []) []
                    spiketrains).
  - by rewrite length_fmap, Hp, length_seq.
  - by rewrite !length_fmap.
  - apply Forall_forall. intros l Hl. rewrite Hclu in Hl.
    apply elem_of_labels_of in Hl as (j & st & Hj & _ & ->).
    apply lookup_lt_Some in Hj. lia.
Qed.

Lemma write_arrays_header_witness :
  write_arrays argsort_stable
    (as_sorting {| _sampling_frequency := "30000";
                   _unit_ids := Some [1; 2; 3];
                   _spiketrains := Some [[20; 40]; []; [30]] |})
  = Ok ([20; 30; 40], [2; 1; 3; 1]).
Proof.
  destruct (write_arrays_header argsort_stable
              (as_sorting {| _sampling_frequency := "30000";
                             _unit_ids := Some [1; 2; 3];
                             _spiketrains := Some [[20; 40]; []; [30]] |})
              [1; 2; 3] [[20; 40]; []; [30]] argsort_stable_contract eq_refl
              ltac:(done) eq_refl) as (res & clu & Hw & _).
  reflexivity.
Defined.

(** ** When the round trip keeps the units *)

Lemma length_filter_all {A} (P : A → Prop) `{∀ x, Decision (P x)}
    (l : list A) :
  length (filter P l) = length l → Forall P l.
Proof.
  induction l as [|x l IH]; [constructor|].
  destruct (decide (P x)) as [Hx|Hx].
  - rewrite filter_cons_True by done. simpl. intros Hl.
    constructor; [done|]. apply IH. lia.
  - rewrite filter_cons_False by done. simpl. intros Hl.
    pose proof (length_filter P l). lia.
Qed.

(** The conditions of the amended C3 are needed: for an extractor with ids
    1..n and no negative time, if what [write_sorting] produces is read back
    under the legacy rule with the same ids, then two units at least have a
    spike and every unit after the first has one. *)
Lemma round_trip_only_if (argsort : list Z → list nat) (sf : pyfloat)
    (self self' : t) (sts : list (list Z)) (res' clu' : list Z) :
  argsort_contract argsort →
  _unit_ids self = Some (seqZ 1 (Z.of_nat (length sts))) →
  _spiketrains self = Some sts →
  Forall (Forall (λ x, 0 ≤ x)) sts →
  write_arrays argsort (as_sorting self) = Ok (res', clu') →
  read_pair Legacy true sf res' clu' = Ok self' →
  _unit_ids self' = Some (seqZ 1 (Z.of_nat (length sts))) →
  (2 ≤ length (filter (λ st, st ≠ []) sts))%nat ∧
  Forall (λ st, st ≠ []) (tail sts).
Proof.
  intros Hc Hids Hsts Hneg Hwrite Hread Hids'.
  set (m := Z.of_nat (length sts)) in *.
  destruct (decide (m = 0)) as [Hm0 | Hm0].
  { exfalso. rewrite Hm0 in Hids. unfold write_arrays in Hwrite.
    simpl in Hwrite. unfold get_unit_ids in Hwrite. rewrite Hids in Hwrite.
    simpl in Hwrite. injection Hwrite as <- <-.
    unfold read_pair in Hread. simpl in Hread. injection Hread as <-.
    done. }
  assert (mapM (sorting_get_unit_spike_train (as_sorting self)) (seqZ 1 m)
          = Ok sts) as Htrains.
  { unfold m. rewrite written_trains by done. by rewrite fmap_filter_nonneg. }
  assert (seqZ 1 m ≠ []) as Hne.
  { intros Hnil. apply (f_equal length) in Hnil.
    rewrite length_seqZ in Hnil. simpl in Hnil. lia. }
  pose proof (write_arrays_nonempty argsort (as_sorting self) (seqZ 1 m) sts Hc
                ltac:(simpl; unfold get_unit_ids; by rewrite Hids) Hne Htrains)
    as Hw. simpl in Hw.
  set (res0 := np_concatenate sts) in *.
  set (clu0 := labels_of sts) in *.
  set (p := argsort res0) in *.
  destruct (Hc res0) as [Hp _]. fold p in Hp.
  assert (length clu0 = length res0) as Hlen by apply length_labels_of.
  assert (key_at clu0 <$> p ≡ₚ clu0) as Hclu
    by (apply permuted_keys; by rewrite Hlen).
  rewrite Hw in Hwrite. injection Hwrite as <- <-.
  set (U := np_unique (key_at clu0 <$> p)) in *.
  set (c := length (filter (λ st : list Z, st ≠ []) sts)).
  assert (length U = c) as HU.
  { unfold U, c. rewrite (np_unique_labels sts _ Hclu).
    rewrite length_fmap.
    by rewrite <- (length_filter_positions (λ st : list Z, st ≠ []) [] sts). }
  assert (∀ x, x ∈ U ↔ ∃ j st, sts !! j = Some st ∧ st ≠ [] ∧ x = Z.of_nat j + 1)
    as HelU.
  { intros x. unfold U. rewrite elem_of_np_unique, Hclu.
    apply elem_of_labels_of. }
  destruct (decide (key_at res0 <$> p = [])) as [Hnil | Hres].
  { exfalso. rewrite Hnil in Hread. unfold read_pair in Hread.
    simpl in Hread. injection Hread as <-. done. }
  rewrite read_pair_nonempty in Hread by done. fold U in Hread.
  destruct (adjust_n_clu Legacy (Z.of_nat (length U)) U) as [n|] eqn:Hadj;
    [|done].
  rewrite bind_Ok in Hread.
  destruct (select_units_cases true n (key_at res0 <$> p) (key_at clu0 <$> p))
    as [[Hs _]|[Hs _]]; rewrite Hs in Hread; [done|].
  unfold selected in Hread. rewrite bind_Ok in Hread.
  injection Hread as <-. simpl in Hids'. injection Hids' as Hseq.
  assert (n = m + 1) as Hn.
  { apply (f_equal length) in Hseq. rewrite !length_seqZ in Hseq. lia. }
  assert (U ≠ []) as HUne.
  { intros HUnil. apply Hres. apply nil_length_inv.
    rewrite length_fmap, Hp, length_seq, <- Hlen.
    destruct clu0 as [|x clu1] eqn:Hclu0; [done|]. exfalso.
    assert (x ∈ U) as Hx.
    { unfold U. rewrite elem_of_np_unique, Hclu. by left. }
    rewrite HUnil in Hx. by apply elem_of_nil in Hx. }
  assert (2 ≤ c)%nat as Hc2.
  { rewrite <- HU. destruct U as [|x [|y U']]; [done| |simpl; lia].
    exfalso. simpl in Hadj. by rewrite adjust_n_clu_single_id in Hadj. }
  split; [exact Hc2|].
  assert (np_in 0 U = false) as H0.
  { apply bool_decide_eq_false_2. rewrite HelU. intros (j & _ & _ & _ & ?). lia. }
  destruct (adjust_n_clu_Ok_inv _ _ _ _ Hadj) as [(_ & _ & ?) | Hn']; [lia|].
  rewrite H0, HU in Hn'.
  destruct sts as [|st0 sts1]; [done|]. simpl.
  destruct (np_in 1 U) eqn:H1; cbv iota in Hn'.
  - assert (Forall (λ st, st ≠ []) (st0 :: sts1)) as Hall.
    { apply (length_filter_all (λ st : list Z, st ≠ [])). fold c.
      unfold m in Hn. simpl length in *. lia. }
    by apply Forall_cons in Hall as [_ ?].
  - assert (st0 = []) as ->.
    { destruct (decide (st0 = [])) as [|Hst0]; [done|]. exfalso.
      apply bool_decide_eq_false_1 in H1. apply H1, HelU.
      by exists 0%nat, st0. }
    apply (length_filter_all (λ st : list Z, st ≠ [])). unfold c in Hn'.
    rewrite filter_cons_False in Hn' by (intros H; by apply H).
    unfold m in Hn. simpl length in Hn. lia.
Qed.

(** ** Paths *)

Lemma append_assoc (a b c : string) : (a +:+ b) +:+ c = a +:+ (b +:+ c).
Proof.
  induction a as [|x a IH]; [done|].
  change (String x ((a +:+ b) +:+ c) = String x (a +:+ (b +:+ c))).
  by rewrite IH.
Qed.

Lemma list_ascii_of_string_app (a b : string) :
  list_ascii_of_string (a +:+ b) =
  list_ascii_of_string a ++ list_ascii_of_string b.
Proof.
  induction a as [|x a IH]; [done|].
  change (x :: list_ascii_of_string (a +:+ b) =
          x :: (list_ascii_of_string a ++ list_ascii_of_string b)).
  by rewrite IH.
Qed.

Lemma has_slash_app (a b : string) :
  has_slash (a +:+ b) = has_slash a || has_slash b.
Proof.
  induction a as [|x a IH]; [done|].
  change (is_slash x || has_slash (a +:+ b) =
          is_slash x || has_slash a || has_slash b).
  rewrite IH. by destruct (is_slash x).
Qed.

Lemma has_slash_chars (s : string) :
  has_slash s = false ↔ Forall (λ c, is_slash c = false) (list_ascii_of_string s).
Proof.
  induction s as [|x s IH]; simpl.
  - split; [constructor|done].
  - rewrite Forall_cons, <- IH. destruct (is_slash x); simpl; naive_solver.
Qed.

Lemma take_while_app_stop {A} (p : A → bool) (l : list A) (x : A) (k : list A) :
  Forall (λ y, p y = true) l → p x = false →
  take_while p (l ++ x :: k) = l ∧ drop_while p (l ++ x :: k) = x :: k.
Proof.
  intros Hl Hx. induction Hl as [|y l Hy _ IH]; simpl.
  - by rewrite Hx.
  - rewrite Hy. destruct IH as [-> ->]. done.
Qed.

Lemma take_while_Forall {A} (p : A → bool) (l : list A) :
  Forall (λ y, p y = true) (take_while p l).
Proof.
  induction l as [|x l IH]; simpl; [constructor|].
  destruct (p x) eqn:Hx; by constructor.
Qed.

(** The last component [os.path.split] returns has no slash. *)
Lemma os_path_split_tail (p : string) : has_slash (os_path_split p).2 = false.
Proof.
  unfold os_path_split. simpl. apply has_slash_chars.
  rewrite list_ascii_of_string_of_list_ascii.
  apply Forall_reverse.
  eapply Forall_impl; [apply take_while_Forall|].
  simpl. intros c Hc. by destruct (is_slash c).
Qed.

(** Splitting a path formed from a plain folder and a name gives them
    back. *)
Lemma os_path_split_join (folder name : string) :
  plain_folder folder = true →
  has_slash name = false →
  os_path_split (folder +:+ "/" +:+ name) = (folder, name).
Proof.
  intros Hf Hn. unfold os_path_split, plain_folder in *.
  rewrite !list_ascii_of_string_app. simpl.
  rewrite reverse_app, reverse_cons, <- app_assoc. simpl.
  apply has_slash_chars in Hn.
  destruct (take_while_app_stop (λ c, negb (is_slash c))
              (reverse (list_ascii_of_string name)) "/"%char
              (reverse (list_ascii_of_string folder))) as [-> ->].
  { apply Forall_reverse. eapply Forall_impl; [exact Hn|].
    simpl. by intros c ->. }
  { done. }
  simpl. change (is_slash "/") with true. simpl.
  destruct (reverse (list_ascii_of_string folder)) as [|c r] eqn:Hr; [done|].
  simpl. destruct (is_slash c); [done|].
  rewrite <- Hr, !reverse_involutive, !string_of_list_ascii_of_string. done.
Qed.

Lemma path_in_split (folder ext : string) :
  plain_folder folder = true →
  has_slash ext = false →
  os_path_split (path_in folder (os_path_split folder).2 ext) =
  (folder, (os_path_split folder).2 +:+ ext).
Proof.
  intros Hf He. unfold path_in. apply os_path_split_join; [done|].
  by rewrite has_slash_app, os_path_split_tail, He.
Qed.

(** ** Slices of file names *)

Lemma length_append (a b : string) :
  String.length (a +:+ b) = (String.length a + String.length b)%nat.
Proof.
  induction a as [|x a IH]; [done|].
  change (S (String.length (a +:+ b)) = S (String.length a + String.length b)).
  by rewrite IH.
Qed.

Lemma substring_full (t : string) : substring 0 (String.length t) t = t.
Proof. induction t as [|x t IH]; [done|]. simpl. by rewrite IH. Qed.

Lemma substring_app_skip (a t : string) (k m : nat) :
  substring (String.length a + k) m (a +:+ t) = substring k m t.
Proof.
  induction a as [|x a IH]; [done|].
  change (substring (S (String.length a + k)) m (String x (a +:+ t))
          = substring k m t).
  simpl. apply IH.
Qed.

Lemma substring_app_l (s t : string) (a m : nat) :
  (a + m ≤ String.length s)%nat →
  substring a m (s +:+ t) = substring a m s.
Proof.
  revert a m. induction s as [|x s IH]; intros a m Hle.
  - simpl in Hle. assert (a = 0%nat ∧ m = 0%nat) as [-> ->] by lia.
    by destruct t.
  - change (String x s +:+ t) with (String x (s +:+ t)).
    destruct a as [|a]; simpl.
    + destruct m as [|m]; [done|]. f_equal. apply (IH 0%nat). simpl in Hle. lia.
    + apply IH. simpl in Hle. lia.
Qed.

(** [x[-k:]] of a name that ends in the [k] characters of [t] is [t]. *)
Lemma py_slice_from_suffix (a t : string) :
  t ≠ "" →
  py_slice_from (a +:+ t) (- Z.of_nat (String.length t)) = t.
Proof.
  intros Ht. unfold py_slice_from, py_slice, py_clip. rewrite length_append.
  assert (0 < String.length t)%nat by (destruct t; [done|simpl; lia]).
  destruct (Z.ltb_spec (- Z.of_nat (String.length t)) 0); [|lia].
  destruct (Z.ltb_spec (Z.of_nat (String.length a + String.length t)) 0); [lia|].
  replace (Z.to_nat (Z.max _ 0)) with (String.length a + 0)%nat by lia.
  replace (Z.to_nat (Z.min _ _ - Z.max _ 0)) with (String.length t) by lia.
  by rewrite substring_app_skip, substring_full.
Qed.

(** [x[start:stop]] with both bounds negative, on a name that ends in a
    suffix [t] at least [-start] long, is the same slice of [t]. *)
Lemma py_slice_suffix (a t : string) (start stop : Z) :
  - Z.of_nat (String.length t) ≤ start < 0 →
  start ≤ stop < 0 →
  py_slice (a +:+ t) start stop = py_slice t start stop.
Proof.
  intros Hs He. unfold py_slice, py_clip. rewrite length_append.
  destruct (Z.ltb_spec start 0); [|lia]. destruct (Z.ltb_spec stop 0); [|lia].
  replace (Z.to_nat (Z.max (start + Z.of_nat (String.length a + String.length t)) 0))
    with (String.length a +
          Z.to_nat (Z.max (start + Z.of_nat (String.length t)) 0))%nat by lia.
  rewrite substring_app_skip. f_equal. lia.
Qed.

Lemma strip_prefix_app (p s : string) : strip_prefix p (p +:+ s) = Some s.
Proof.
  induction p as [|x p IH]; [done|].
  change (strip_prefix (String x p) (String x (p +:+ s)) = Some s).
  simpl. by rewrite bool_decide_eq_true_2.
Qed.

(** A regular file directly in the folder is listed. *)
Lemma elem_of_onlyfiles (fs : filesystem) (folder f : string) :
  is_Some (fs !! (folder +:+ "/" +:+ f)) →
  has_slash f = false →
  f ∈ onlyfiles fs folder.
Proof.
  intros [v Hv] Hf. unfold onlyfiles. apply list_elem_of_omap.
  exists (folder +:+ "/" +:+ f). split.
  - apply list_elem_of_fmap. exists (folder +:+ "/" +:+ f, v).
    split; [done|]. by apply elem_of_map_to_list.
  - rewrite <- append_assoc, strip_prefix_app. simpl. by rewrite Hf.
Qed.

Lemma existsb_elem_of {A} (f : A → bool) (l : list A) (x : A) :
  x ∈ l → f x = true → existsb f l = true.
Proof.
  intros Hx Hf. apply existsb_exists. exists x.
  split; [by apply list_elem_of_In|done].
Qed.

(** ** Saving and opening the same folder *)

Lemma written_listed (sorting : SortingExtractor) (save_path : string)
    (res clu : list Z) (fs : filesystem) (ext : string) :
  ext = ".res" ∨ ext = ".clu" →
  let name := (os_path_split save_path).2 in
  name +:+ ext ∈ onlyfiles (written sorting save_path res clu fs) save_path.
Proof.
  intros Hext name. apply elem_of_onlyfiles.
  - destruct (written_lookup_res_clu sorting save_path res clu fs) as [Hr Hc].
    unfold path_in in Hr, Hc. fold name in Hr, Hc.
    destruct Hext as [-> | ->]; eauto.
  - rewrite has_slash_app. unfold name. rewrite os_path_split_tail.
    by destruct Hext as [-> | ->].
Qed.

Lemma written_any (sorting : SortingExtractor) (save_path : string)
    (res clu : list Z) (fs : filesystem) :
  existsb (λ x, bool_decide (py_slice_from x (-3) = "res"))
          (onlyfiles (written sorting save_path res clu fs) save_path) = true ∧
  existsb (λ x, bool_decide (py_slice_from x (-3) = "clu"))
          (onlyfiles (written sorting save_path res clu fs) save_path) = true.
Proof.
  split.
  - eapply existsb_elem_of; [apply (written_listed _ _ _ _ _ ".res"); by left|].
    apply bool_decide_eq_true_2.
    change (?n +:+ ".res") with (n +:+ "." +:+ "res").
    rewrite <- append_assoc. by apply (py_slice_from_suffix _ "res").
  - eapply existsb_elem_of; [apply (written_listed _ _ _ _ _ ".clu"); by right|].
    apply bool_decide_eq_true_2.
    change (?n +:+ ".clu") with (n +:+ "." +:+ "clu").
    rewrite <- append_assoc. by apply (py_slice_from_suffix _ "clu").
Qed.

(** X11: what write_sorting saves into a plain folder is what the
    constructor reads from it, with the pair named explicitly or with the
    folder alone: the extractor read back is the one read_pair builds from
    the two arrays written, provided the sampling rate of the sidecar is
    read.  The sidecar is the one that was there before, if any; otherwise
    it holds what the sorting's sampling frequency prints as, and reading it
    raises unless that is a float literal. *)
Theorem write_sorting_then_init (argsort : list Z → list nat)
    (era : numpy_era) (sorting : SortingExtractor) (save_path : string)
    (fs fs' : filesystem) (keep : bool) (folder_path : option string) :
  plain_folder save_path = true →
  NeuroscopeSortingExtractor.write_sorting argsort sorting save_path fs = Ok fs' →
  let name := (os_path_split save_path).2 in
  let save_xml := path_in save_path name ".xml" in
  ∃ res clu,
    write_arrays argsort sorting = Ok (res, clu) ∧
    NeuroscopeSortingExtractor.init era fs'
      (Some (path_in save_path name ".res")) (Some (path_in save_path name ".clu"))
      folder_path keep
    = (sf ← read_samplingrate fs' save_xml; read_pair era keep sf res clu) ∧
    NeuroscopeSortingExtractor.init era fs' None None (Some save_path) keep
    = (sf ← read_samplingrate fs' save_xml; read_pair era keep sf res clu) ∧
    read_samplingrate fs' save_xml =
      match fs !! save_xml with
      | None => of_tag_string py_float (sorting_get_sampling_frequency sorting)
      | Some _ => read_samplingrate fs save_xml
      end.
Proof.
  intros Hplain. rewrite write_sorting_written.
  destruct (write_arrays argsort sorting) as [[res clu]|]; [|done].
  rewrite bind_Ok. intros [= <-] name save_xml.
  exists res, clu. split; [done|].
  destruct (written_lookup_res_clu sorting save_path res clu fs) as [Hr Hc].
  fold name in Hr, Hc.
  assert (NeuroscopeSortingExtractor.init_pair era
            (written sorting save_path res clu fs)
            (path_in save_path name ".res") (path_in save_path name ".clu") keep
          = (sf ← read_samplingrate (written sorting save_path res clu fs) save_xml;
             read_pair era keep sf res clu)) as Hpair.
  { unfold NeuroscopeSortingExtractor.init_pair, name.
    rewrite path_in_split by done. cbn [fst snd]. fold name. fold save_xml.
    destruct (read_samplingrate _ save_xml) as [sf|]; [|done].
    rewrite !bind_Ok. unfold np_loadtxt. rewrite Hr, Hc. done. }
  split; [|split].
  - exact Hpair.
  - unfold NeuroscopeSortingExtractor.init. fold name. fold save_xml.
    destruct (written_any sorting save_path res clu fs) as [-> ->].
    simpl. rewrite Hpair.
    by destruct (read_samplingrate _ save_xml).
  - unfold read_samplingrate, save_xml, name.
    rewrite (written_lookup_xml sorting save_path res clu fs).
    by destruct (fs !! _).
Qed.

Lemma write_sorting_then_init_witness :
  let self := {| _sampling_frequency := "30000";
                 _unit_ids := Some [1; 2];
                 _spiketrains := Some [[20; 40]; [30]] |} in
  let fs' := written (as_sorting self) "d/rec" [20; 30; 40] [2; 1; 2; 1] ∅ in
  NeuroscopeSortingExtractor.write_sorting argsort_stable (as_sorting self)
    "d/rec" ∅ = Ok fs' ∧
  NeuroscopeSortingExtractor.init Legacy fs' None None (Some "d/rec") true
  = Ok self.
Proof.
  intros self fs'.
  assert (NeuroscopeSortingExtractor.write_sorting argsort_stable
            (as_sorting self) "d/rec" ∅ = Ok fs') as Hw.
  { rewrite write_sorting_written. reflexivity. }
  split; [exact Hw|].
  destruct (write_sorting_then_init argsort_stable Legacy (as_sorting self)
              "d/rec" ∅ fs' true None eq_refl Hw)
    as (res & clu & Harr & _ & -> & ->).
  injection Harr as <- <-. reflexivity.
Defined.

(** ** What the multi-shank constructor accepts *)

(** A file whose name ends in res or clu makes the assertion of line 384
    fail. *)
Lemma multi_init_res_or_clu (era : numpy_era) (fs : filesystem)
    (folder_path : string) (keep : bool) (exclude_shanks : option (list Z))
    (stem kind : string) :
  kind = "res" ∨ kind = "clu" →
  has_slash stem = false →
  is_Some (fs !! (folder_path +:+ "/" +:+ stem +:+ kind)) →
  NeuroscopeMultiSortingExtractor.init era fs folder_path keep exclude_shanks =
  (_ ← read_samplingrate fs
         (path_in folder_path (os_path_split folder_path).2 ".xml");
   Raise AssertionError).
Proof.
  intros Hkind Hstem Hfile.
  assert (stem +:+ kind ∈ onlyfiles fs folder_path) as Hin.
  { apply elem_of_onlyfiles; [done|]. rewrite has_slash_app, Hstem.
    by destruct Hkind as [-> | ->]. }
  assert (py_slice_from (stem +:+ kind) (-3) = kind) as Hslice.
  { destruct Hkind as [-> | ->]; by apply (py_slice_from_suffix stem). }
  unfold NeuroscopeMultiSortingExtractor.init.
  destruct (read_samplingrate _ _) as [sf|]; [|done]. rewrite !bind_Ok.
  assert (existsb (λ x, bool_decide (py_slice_from x (-3) = "res"))
            (onlyfiles fs folder_path)
          || existsb (λ x, bool_decide (py_slice_from x (-3) = "clu"))
               (onlyfiles fs folder_path) = true) as Hany.
  { apply orb_true_iff. destruct Hkind as [-> | ->]; [left|right];
      (eapply existsb_elem_of; [exact Hin|]);
      by apply bool_decide_eq_true_2. }
  apply orb_true_iff in Hany as [-> | ->]; [done|].
  by rewrite andb_false_r.
Qed.

(** X12: a folder that holds a file whose name ends in res or in clu is
    never opened by the multi-shank constructor: once the sidecar is read,
    the assertion of line 384 fails, whatever shank files are there as
    well. *)
Theorem multi_init_single_pair (era : numpy_era) (fs : filesystem)
    (folder_path : string) (keep : bool) (exclude_shanks : option (list Z))
    (stem kind : string) :
  kind = "res" ∨ kind = "clu" →
  has_slash stem = false →
  is_Some (fs !! (folder_path +:+ "/" +:+ stem +:+ kind)) →
  NeuroscopeMultiSortingExtractor.init era fs folder_path keep exclude_shanks =
  (_ ← read_samplingrate fs
         (path_in folder_path (os_path_split folder_path).2 ".xml");
   Raise AssertionError).
Proof. exact (multi_init_res_or_clu era fs folder_path keep exclude_shanks stem kind). Qed.

Lemma multi_init_single_pair_witness :
  NeuroscopeMultiSortingExtractor.init Legacy
    {[ "d/rec/rec.xml" := XmlDoc [("samplingrate", "30000")];
       "d/rec/rec.res" := TextInts [10];
       "d/rec/rec.res.1" := TextInts [10];
       "d/rec/rec.clu.1" := TextInts [1; 1] ]}
    "d/rec" true None
  = Raise AssertionError.
Proof.
  rewrite (multi_init_single_pair Legacy _ "d/rec" true None "rec." "res");
    [reflexivity|by left|reflexivity|].
  by eexists.
Defined.

(** X13: the folder a writer of this module saves a sorting into is
    rejected by the multi-shank constructor, for the single-pair writer and
    for the multi-shank writer alike. *)
Theorem multi_init_rejects_written (argsort : list Z → list nat)
    (era : numpy_era) (sorting : SortingExtractor) (save_path : string)
    (fs fs' : filesystem) (keep : bool) (exclude_shanks : option (list Z)) :
  NeuroscopeMultiSortingExtractor.write_sorting argsort sorting save_path fs
    = Ok fs' →
  ∀ self,
    NeuroscopeMultiSortingExtractor.init era fs' save_path keep exclude_shanks
    ≠ Ok self.
Proof.
  rewrite multi_write_sorting_eq, write_sorting_written.
  destruct (write_arrays argsort sorting) as [[res clu]|]; [|done].
  rewrite bind_Ok. intros [= <-] self.
  rewrite (multi_init_res_or_clu era _ save_path keep exclude_shanks
             ((os_path_split save_path).2 +:+ ".") "res").
  - by destruct (read_samplingrate _ _).
  - by left.
  - by rewrite has_slash_app, os_path_split_tail.
  - destruct (written_lookup_res_clu sorting save_path res clu fs) as [Hr _].
    unfold path_in in Hr. rewrite append_assoc. eauto.
Qed.

Lemma multi_init_rejects_written_witness :
  let self := {| _sampling_frequency := "30000";
                 _unit_ids := Some [1; 2];
                 _spiketrains := Some [[20; 40]; [30]] |} in
  let fs' := written (as_sorting self) "d/rec" [20; 30; 40] [2; 1; 2; 1] ∅ in
  NeuroscopeMultiSortingExtractor.write_sorting argsort_stable
    (as_sorting self) "d/rec" ∅ = Ok fs' ∧
  NeuroscopeMultiSortingExtractor.init Legacy fs' "d/rec" true None
  = Raise AssertionError.
Proof.
  intros self fs'.
  assert (NeuroscopeMultiSortingExtractor.write_sorting argsort_stable
            (as_sorting self) "d/rec" ∅ = Ok fs') as Hw.
  { rewrite multi_write_sorting_eq, write_sorting_written. reflexivity. }
  split; [exact Hw|].
  pose proof (multi_init_rejects_written argsort_stable Legacy _ "d/rec" ∅ fs'
                true None Hw) as Hno.
  destruct (NeuroscopeMultiSortingExtractor.init Legacy fs' "d/rec" true None)
    as [m|e] eqn:Hinit; [by destruct (Hno m)|].
  vm_compute in Hinit. by injection Hinit as <-.
Defined.

(** ** Which files count as shank files *)

Lemma py_slice_before_suffix (stem t : string) :
  String.length t = 6%nat →
  py_slice (stem +:+ t) (-10) (-6) = py_slice_from stem (-4).
Proof.
  intros Ht. unfold py_slice_from, py_slice, py_clip.
  rewrite length_append, Ht.
  destruct (Z.ltb_spec (Z.of_nat (String.length stem)) 0); [lia|].
  change (-10 <? 0) with true. change (-6 <? 0) with true.
  change (-4 <? 0) with true. cbv iota.
  rewrite substring_app_l by lia. f_equal; lia.
Qed.

Lemma shank_ids_app (kind : string) (l k : list string) :
  NeuroscopeMultiSortingExtractor.shank_ids kind (l ++ k) =
  NeuroscopeMultiSortingExtractor.shank_ids kind l ++
  NeuroscopeMultiSortingExtractor.shank_ids kind k.
Proof.
  unfold NeuroscopeMultiSortingExtractor.shank_ids.
  by rewrite filter_app, fmap_app.
Qed.

(** X14: a file named STEM.res.C (or STEM.clu.C) with a single character C
    after the last dot is a shank file with id C, unless STEM ends in temp;
    with two characters after the last dot, as for shank 10 and beyond, it
    is not a shank file at all and is passed over. *)
Theorem shank_ids_suffix (kind stem : string) (c c' : ascii)
    (before after : list string) :
  kind = "res" ∨ kind = "clu" →
  NeuroscopeMultiSortingExtractor.shank_ids kind
    (before ++ (stem +:+ "." +:+ kind +:+ "." +:+ String c "") :: after) =
    NeuroscopeMultiSortingExtractor.shank_ids kind before ++
    (if decide (py_slice_from stem (-4) = "temp") then [] else [String c ""]) ++
    NeuroscopeMultiSortingExtractor.shank_ids kind after ∧
  NeuroscopeMultiSortingExtractor.shank_ids kind
    (before ++ (stem +:+ "." +:+ kind +:+ "." +:+ String c (String c' "")) :: after) =
    NeuroscopeMultiSortingExtractor.shank_ids kind (before ++ after).
Proof.
  intros Hkind. split.
  - rewrite (shank_ids_app kind before). f_equal.
    change (?x :: after) with ([x] ++ after).
    rewrite (shank_ids_app kind [_]). f_equal.
    unfold NeuroscopeMultiSortingExtractor.shank_ids.
    rewrite filter_cons, filter_nil.
    set (x := stem +:+ "." +:+ kind +:+ "." +:+ String c "").
    assert (py_slice x (-5) (-2) = kind) as H5.
    { unfold x. destruct Hkind as [-> | ->];
        rewrite (py_slice_suffix stem) by (simpl; lia); reflexivity. }
    assert (py_slice x (-10) (-6) = py_slice_from stem (-4)) as H10.
    { unfold x. apply py_slice_before_suffix.
      by destruct Hkind as [-> | ->]. }
    assert (py_slice_from x (-1) = String c "") as H1.
    { unfold x. rewrite <- !append_assoc.
      by apply (py_slice_from_suffix _ (String c "")). }
    rewrite H5, H10.
    destruct (decide (py_slice_from stem (-4) = "temp")) as [Ht|Ht].
    + rewrite decide_False; [done|]. intros [_ ?]. done.
    + rewrite decide_True by done. simpl. by rewrite H1.
  - rewrite !(shank_ids_app kind before). f_equal.
    change (?x :: after) with ([x] ++ after).
    rewrite (shank_ids_app kind [_]).
    unfold NeuroscopeMultiSortingExtractor.shank_ids at 1.
    rewrite filter_cons, filter_nil, decide_False; [done|].
    intros [H5 _]. revert H5.
    destruct Hkind as [-> | ->];
      rewrite (py_slice_suffix stem) by (simpl; lia); discriminate.
Qed.

(** A folder listing with shanks 1 and 10: only shank 1 is found. *)
Lemma shank_ids_suffix_example :
  NeuroscopeMultiSortingExtractor.shank_ids "res"
    ["rec.clu.1"; "rec.clu.10"; "rec.res.1"; "rec.res.10"; "rec.temp.res.2";
     "rec.xml"]
  = ["1"].
Proof. reflexivity. Qed.

Lemma shank_ids_suffix_witness :
  NeuroscopeMultiSortingExtractor.shank_ids "res"
    (["rec.clu.1"] ++ "rec.res.1" :: ["rec.res.10"]) = ["1"] ∧
  NeuroscopeMultiSortingExtractor.shank_ids "res"
    (["rec.clu.1"] ++ "rec.res.10" :: ["rec.xml"]) = [].
Proof.
  destruct (shank_ids_suffix "res" "rec" "1" "0" ["rec.clu.1"] ["rec.res.10"]
              (or_introl eq_refl)) as [H1 _].
  destruct (shank_ids_suffix "res" "rec" "1" "0" ["rec.clu.1"] ["rec.xml"]
              (or_introl eq_refl)) as [_ H2].
  split; [exact H1 | exact H2].
Defined.

(** ** Reading a recording's parameters *)

Lemma digit_chars (c : ascii) :
  is_Some (Ascii.is_nat c) →
  py_isspace c = false ∧ c ≠ "-"%char ∧ c ≠ "+"%char.
Proof.
  intros [d Hd].
  destruct c as [[] [] [] [] [] [] [] []]; try discriminate Hd; done.
Qed.

Lemma is_nat_pretty_N_char (x : N) :
  (x < 10)%N → Ascii.is_nat (pretty_N_char x) = Some (N.to_nat x).
Proof.
  intros Hx.
  assert (x = 0 ∨ x = 1 ∨ x = 2 ∨ x = 3 ∨ x = 4 ∨ x = 5 ∨ x = 6 ∨ x = 7
          ∨ x = 8 ∨ x = 9)%N as H by lia.
  repeat (destruct H as [-> | H]; [done|]). by subst.
Qed.

Lemma pretty_N_go_digits (x : N) (s : string) :
  Forall (λ c, is_Some (Ascii.is_nat c)) (list_ascii_of_string s) →
  Forall (λ c, is_Some (Ascii.is_nat c)) (list_ascii_of_string (pretty_N_go x s)).
Proof.
  revert s. induction (N.lt_wf_0 x) as [x _ IH]. intros s Hs.
  destruct (decide (x = 0)%N) as [-> | Hx]; [by rewrite pretty_N_go_0|].
  rewrite pretty_N_go_step by lia. apply IH.
  - apply N.div_lt; lia.
  - simpl. constructor; [|done].
    rewrite is_nat_pretty_N_char; [by eexists|]. by apply N.mod_lt.
Qed.

(** The digits printed for [x] in front of [s] are read back as [x]. *)
Lemma py_int_digits_pretty_N_go (x : N) :
  ∃ k : Z, 0 ≤ k ∧ ∀ acc b s,
    py_int_digits acc b (list_ascii_of_string (pretty_N_go x s)) =
    py_int_digits (acc * 10 ^ k + Z.of_N x) (b || bool_decide (0 < x)%N)
      (list_ascii_of_string s).
Proof.
  induction (N.lt_wf_0 x) as [x _ IH].
  destruct (decide (x = 0)%N) as [-> | Hx].
  - exists 0. split; [done|]. intros acc b s.
    rewrite pretty_N_go_0, bool_decide_false, orb_false_r by lia.
    f_equal. lia.
  - destruct (IH (x `div` 10)%N) as (k & Hk & H); [apply N.div_lt; lia|].
    exists (k + 1). split; [lia|]. intros acc b s.
    rewrite pretty_N_go_step, H by lia. simpl list_ascii_of_string.
    cbn [py_int_digits].
    rewrite is_nat_pretty_N_char by (apply N.mod_lt; lia).
    rewrite (bool_decide_true (0 < x)%N), orb_true_r by lia.
    f_equal. rewrite Z.pow_add_r, Z.pow_1_r by lia.
    pose proof (N.div_mod x 10 ltac:(lia)) as Hdm.
    set (q := (x `div` 10)%N) in *. set (r := (x `mod` 10)%N) in *.
    set (p := 10 ^ k). lia.
Qed.

Lemma drop_while_head {A} (p : A → bool) (l : list A) :
  (∀ x, head l = Some x → p x = false) → drop_while p l = l.
Proof.
  destruct l as [|x l]; [done|]. intros H. simpl. by rewrite (H x).
Qed.

(** [int(str(n))] is [n] for a count. *)
Lemma py_int_pretty (n : nat) : py_int (pretty (Z.of_nat n)) = Ok (Z.of_nat n).
Proof.
  destruct n as [|n]; [done|].
  rewrite Nat2Z.inj_succ. unfold Z.succ.
  destruct (Z.of_nat n + 1) as [|p|p] eqn:Hp; [lia| |lia].
  change (pretty (Z.pos p)) with (pretty (N.pos p)).
  unfold pretty, pretty_N. rewrite decide_False by done.
  destruct (py_int_digits_pretty_N_go (N.pos p)) as (k & _ & Hval).
  specialize (Hval 0 false ""). simpl in Hval.
  pose proof (pretty_N_go_digits (N.pos p) "" ltac:(constructor)) as Hd.
  unfold py_int.
  set (cs := list_ascii_of_string (pretty_N_go (N.pos p) "")) in *.
  rewrite (drop_while_head py_isspace cs).
  2:{ intros c Hc. apply digit_chars.
      eapply Forall_forall in Hd; [exact Hd|]. by apply head_Some_elem_of. }
  rewrite (drop_while_head py_isspace (reverse cs)).
  2:{ intros c Hc. apply digit_chars.
      eapply Forall_forall in Hd; [exact Hd|].
      apply elem_of_reverse. by apply head_Some_elem_of. }
  rewrite reverse_involutive.
  destruct cs as [|c r]; [done|].
  apply Forall_cons in Hd as [Hc _].
  destruct (digit_chars c Hc) as (_ & Hm & Hpl).
  rewrite !bool_decide_false by done. by rewrite Hval.
Qed.

Lemma os_path_join_plain (a b : string) :
  plain_folder a = true → has_slash b = false →
  os_path_join a b = a +:+ "/" +:+ b.
Proof.
  unfold plain_folder, os_path_join. intros Ha Hb.
  destruct (reverse (list_ascii_of_string a)) as [|d r]; [done|].
  destruct (is_slash d); [done|].
  destruct b as [|c b]; [done|]. simpl in Hb.
  by destruct (is_slash c).
Qed.

Lemma of_tag_string_int (text : string) (v : Z) :
  py_int text = Ok v → of_tag_string py_int text = Ok v.
Proof.
  intros H. unfold of_tag_string. case_bool_decide as Ht; [|done].
  subst. discriminate H.
Qed.

Lemma of_tag_string_float (text : string) :
  py_float_ok text = true → of_tag_string py_float text = Ok text.
Proof.
  intros H. unfold of_tag_string, py_float. rewrite H.
  case_bool_decide as Ht; [|done]. subst. discriminate H.
Qed.

(** On a plain folder the reader looks for the sidecar under the name the
    writers give it. *)
Lemma recording_init_paths (fs : filesystem) (folder_path : string)
    (subset_channels : option (list Z)) :
  plain_folder folder_path = true →
  let name := (os_path_split folder_path).2 in
  NeuroscopeRecordingExtractor.init fs folder_path subset_channels =
  match fs !! path_in folder_path name ".xml" with
  | None => Raise FileNotFoundError
  | Some f =>
      let soup := match f with XmlDoc tags => tags | _ => [] end in
      nbits ← NeuroscopeRecordingExtractor.tag_string "nbits" soup;
      n_bits ← of_tag_string py_int nbits;
      nchannels ← NeuroscopeRecordingExtractor.tag_string "nchannels" soup;
      num_channels ← of_tag_string py_int nchannels;
      samplingrate ← NeuroscopeRecordingExtractor.tag_string "samplingrate" soup;
      sampling_frequency ← of_tag_string py_float samplingrate;
      mret {| NeuroscopeRecordingExtractor.dat_filepath :=
                path_in folder_path name ".dat";
              NeuroscopeRecordingExtractor.sampling_frequency :=
                sampling_frequency;
              NeuroscopeRecordingExtractor.dtype := "int" +:+ pretty n_bits;
              NeuroscopeRecordingExtractor.numchan :=
                match subset_channels with
                | Some l => Z.of_nat (length l)
                | None => num_channels
                end |}
  end.
Proof.
  intros Hplain name. unfold NeuroscopeRecordingExtractor.init. fold name.
  rewrite !os_path_join_plain
    by (done || (unfold name; by rewrite has_slash_app, os_path_split_tail)).
  done.
Qed.

(** ** Saving a recording and opening the folder *)

(** X15: a recording saved into a plain folder that holds no sidecar is
    opened by the constructor with the parameters of the recording: the data
    file beside the sidecar, the recording's sampling rate and number of
    channels, and the data type the writer handed to the binary writer.  That
    type is int16 if the recording's is, and int32 otherwise; the dtype
    argument of write_recording plays no part.  The binary writer is any
    that leaves the sidecar alone. *)
Theorem write_recording_then_init
    (bindat : RecordingExtractor → string → string → filesystem → filesystem)
    (recording : RecordingExtractor) (save_path dtype : string)
    (fs : filesystem) :
  plain_folder save_path = true →
  let name := (os_path_split save_path).2 in
  let save_xml := path_in save_path name ".xml" in
  fs !! save_xml = None →
  (∀ dt fs0,
     bindat recording (save_path +:+ "/" +:+ name) dt fs0 !! save_xml
     = fs0 !! save_xml) →
  let written_dtype :=
    if decide (recording_get_dtype recording = "int16")
    then "int16" else "int32" in
  (∃ fs1,
     NeuroscopeRecordingExtractor.write_recording bindat recording save_path
       dtype fs
     = bindat recording (save_path +:+ "/" +:+ name) written_dtype fs1) ∧
  NeuroscopeRecordingExtractor.init
    (NeuroscopeRecordingExtractor.write_recording bindat recording save_path
       dtype fs) save_path None
  = Ok {| NeuroscopeRecordingExtractor.dat_filepath :=
            path_in save_path name ".dat";
          NeuroscopeRecordingExtractor.sampling_frequency :=
            recording_get_sampling_frequency recording;
          NeuroscopeRecordingExtractor.dtype := written_dtype;
          NeuroscopeRecordingExtractor.numchan :=
            Z.of_nat (length (recording_get_channel_ids recording)) |}.
Proof.
  intros Hplain name save_xml Hnone Hbin written_dtype.
  assert (∃ nbits,
    NeuroscopeRecordingExtractor.write_parameters recording save_xml dtype fs
    = (<[save_xml :=
           XmlDoc [("nbits", nbits);
                   ("nchannels",
                    pretty (Z.of_nat (length (recording_get_channel_ids recording))));
                   ("samplingrate", recording_get_sampling_frequency recording)]]> fs,
       written_dtype) ∧
    of_tag_string py_int nbits
    = Ok (if decide (recording_get_dtype recording = "int16")
          then 16 else 32) ∧
    "int" +:+ pretty (if decide (recording_get_dtype recording = "int16")
                      then 16 else 32) = written_dtype) as (nbits & Hw & Hn & Hd).
  { unfold NeuroscopeRecordingExtractor.write_parameters, isfile, written_dtype.
    rewrite bool_decide_false by (rewrite Hnone; by intros [? ?]).
    cbn [negb].
    destruct (decide (recording_get_dtype recording = "int16")) as [-> | H16].
    - by eexists.
    - rewrite (bool_decide_false (_ = "int16")) by done.
      destruct (decide (recording_get_dtype recording = "int32")) as [-> | H32].
      + by eexists.
      + rewrite (bool_decide_false (_ = "int32")) by done. by eexists. }
  unfold NeuroscopeRecordingExtractor.write_recording.
  fold name. fold save_xml. rewrite Hw. split; [by eexists|].
  rewrite recording_init_paths by done. fold name. fold save_xml.
  rewrite Hbin, lookup_insert_eq. cbv zeta.
  unfold NeuroscopeRecordingExtractor.tag_string. simpl xml_find.
  cbv beta iota.
  rewrite !bind_Ok, Hn, !bind_Ok, (of_tag_string_int _ _ (py_int_pretty _)).
  rewrite !bind_Ok, of_tag_string_float
    by apply recording_sampling_frequency_float.
  rewrite !bind_Ok, Hd. done.
Qed.

Lemma write_recording_then_init_witness :
  let recording := {| recording_get_dtype := "float32";
                      recording_get_channel_ids := [0; 1; 2; 3];
                      recording_get_sampling_frequency := "30000.0";
                      recording_sampling_frequency_float := eq_refl |} in
  let bindat := λ (_ : RecordingExtractor) (fn dt : string) (fs : filesystem),
                  <[fn +:+ ".dat" := DatFile dt]> fs in
  NeuroscopeRecordingExtractor.init
    (NeuroscopeRecordingExtractor.write_recording bindat recording "d/rec"
       "int16" ∅) "d/rec" None
  = Ok {| NeuroscopeRecordingExtractor.dat_filepath := "d/rec/rec.dat";
          NeuroscopeRecordingExtractor.sampling_frequency := "30000.0";
          NeuroscopeRecordingExtractor.dtype := "int32";
          NeuroscopeRecordingExtractor.numchan := 4 |}.
Proof.
  intros recording bindat.
  refine (proj2 (write_recording_then_init bindat recording "d/rec" "int16" ∅
                   eq_refl eq_refl _)).
  intros dt fs0. by apply lookup_insert_ne.
Defined.

(** With a sidecar in place write_recording is the binary writer alone. *)
Lemma write_recording_existing_sidecar
    (bindat : RecordingExtractor → string → string → filesystem → filesystem)
    (recording : RecordingExtractor) (save_path dtype : string)
    (fs : filesystem) (subset_channels : option (list Z)) :
  plain_folder save_path = true →
  let name := (os_path_split save_path).2 in
  let save_xml := path_in save_path name ".xml" in
  is_Some (fs !! save_xml) →
  (∀ dt fs0,
     bindat recording (save_path +:+ "/" +:+ name) dt fs0 !! save_xml
     = fs0 !! save_xml) →
  NeuroscopeRecordingExtractor.write_recording bindat recording save_path
    dtype fs
  = bindat recording (save_path +:+ "/" +:+ name) dtype fs ∧
  NeuroscopeRecordingExtractor.init
    (NeuroscopeRecordingExtractor.write_recording bindat recording save_path
       dtype fs) save_path subset_channels
  = NeuroscopeRecordingExtractor.init fs save_path subset_channels.
Proof.
  intros Hplain name save_xml Hsome Hbin.
  assert (NeuroscopeRecordingExtractor.write_recording bindat recording
            save_path dtype fs
          = bindat recording (save_path +:+ "/" +:+ name) dtype fs) as Hw.
  { unfold NeuroscopeRecordingExtractor.write_recording,
      NeuroscopeRecordingExtractor.write_parameters, isfile.
    fold name. fold save_xml. by rewrite bool_decide_true by done. }
  split; [exact Hw|].
  rewrite Hw, !recording_init_paths by done. fold name. fold save_xml.
  by rewrite Hbin.
Qed.

(** X16: into a folder that already holds a sidecar, write_recording hands
    the dtype argument to the binary writer unchanged, and the constructor
    returns for the folder what it returned before the save: neither the
    data type written nor the recording's channel count and sampling rate
    reach the reader. *)
Theorem write_recording_keeps_parameters
    (bindat : RecordingExtractor → string → string → filesystem → filesystem)
    (recording : RecordingExtractor) (save_path dtype : string)
    (fs : filesystem) (subset_channels : option (list Z)) :
  plain_folder save_path = true →
  let name := (os_path_split save_path).2 in
  let save_xml := path_in save_path name ".xml" in
  is_Some (fs !! save_xml) →
  (∀ dt fs0,
     bindat recording (save_path +:+ "/" +:+ name) dt fs0 !! save_xml
     = fs0 !! save_xml) →
  NeuroscopeRecordingExtractor.write_recording bindat recording save_path
    dtype fs
  = bindat recording (save_path +:+ "/" +:+ name) dtype fs ∧
  NeuroscopeRecordingExtractor.init
    (NeuroscopeRecordingExtractor.write_recording bindat recording save_path
       dtype fs) save_path subset_channels
  = NeuroscopeRecordingExtractor.init fs save_path subset_channels.
Proof. exact (write_recording_existing_sidecar bindat recording save_path dtype fs subset_channels). Qed.

Lemma write_recording_keeps_parameters_witness :
  let recording := {| recording_get_dtype := "int32";
                      recording_get_channel_ids := [0; 1; 2; 3];
                      recording_get_sampling_frequency := "30000.0";
                      recording_sampling_frequency_float := eq_refl |} in
  let bindat := λ (_ : RecordingExtractor) (fn dt : string) (fs : filesystem),
                  <[fn +:+ ".dat" := DatFile dt]> fs in
  let fs : filesystem :=
    {[ "d/rec/rec.xml" := XmlDoc [("nbits", "16"); ("nchannels", "2");
                                  ("samplingrate", "20000.0")] ]} in
  NeuroscopeRecordingExtractor.write_recording bindat recording "d/rec"
    "int32" fs !! "d/rec/rec.dat" = Some (DatFile "int32") ∧
  NeuroscopeRecordingExtractor.init
    (NeuroscopeRecordingExtractor.write_recording bindat recording "d/rec"
       "int32" fs) "d/rec" None
  = Ok {| NeuroscopeRecordingExtractor.dat_filepath := "d/rec/rec.dat";
          NeuroscopeRecordingExtractor.sampling_frequency := "20000.0";
          NeuroscopeRecordingExtractor.dtype := "int16";
          NeuroscopeRecordingExtractor.numchan := 2 |}.
Proof.
  intros recording bindat fs.
  destruct (write_recording_keeps_parameters bindat recording "d/rec" "int32"
              fs None eq_refl) as [Hw Hi].
  - by eexists.
  - intros dt fs0. by apply lookup_insert_ne.
  - split; [by rewrite Hw|]. by rewrite Hi.
Defined.

(** X17: the sidecar write_sorting creates holds the sampling rate only, so
    once a sorting has been saved into a plain folder without sidecar the
    recording constructor raises AttributeError on that folder, and goes on
    doing so after a recording is saved there as well, since write_recording
    does not touch a sidecar that exists. *)
Theorem sorting_sidecar_blocks_recording (argsort : list Z → list nat)
    (sorting : SortingExtractor)
    (bindat : RecordingExtractor → string → string → filesystem → filesystem)
    (recording : RecordingExtractor) (save_path dtype : string)
    (fs fs' : filesystem) (subset_channels : option (list Z)) :
  plain_folder save_path = true →
  let name := (os_path_split save_path).2 in
  let save_xml := path_in save_path name ".xml" in
  fs !! save_xml = None →
  NeuroscopeSortingExtractor.write_sorting argsort sorting save_path fs = Ok fs' →
  (∀ dt fs0,
     bindat recording (save_path +:+ "/" +:+ name) dt fs0 !! save_xml
     = fs0 !! save_xml) →
  NeuroscopeRecordingExtractor.init fs' save_path subset_channels
  = Raise AttributeError ∧
  NeuroscopeRecordingExtractor.init
    (NeuroscopeRecordingExtractor.write_recording bindat recording save_path
       dtype fs') save_path subset_channels
  = Raise AttributeError.
Proof.
  intros Hplain name save_xml Hnone Hw Hbin.
  rewrite write_sorting_written in Hw.
  destruct (write_arrays argsort sorting) as [[res clu]|]; [|done].
  rewrite bind_Ok in Hw. injection Hw as <-.
  pose proof (written_lookup_xml sorting save_path res clu fs) as Hxml.
  cbv zeta in Hxml. fold name in Hxml. fold save_xml in Hxml.
  rewrite Hnone in Hxml.
  assert (NeuroscopeRecordingExtractor.init
            (written sorting save_path res clu fs) save_path subset_channels
          = Raise AttributeError) as Hinit.
  { rewrite recording_init_paths by done. fold name. fold save_xml.
    by rewrite Hxml. }
  split; [exact Hinit|].
  pose proof (write_recording_existing_sidecar bindat recording save_path
                dtype (written sorting save_path res clu fs) subset_channels
                Hplain) as Hkeep.
  cbv zeta in Hkeep. fold name in Hkeep. fold save_xml in Hkeep.
  destruct Hkeep as [_ ->]; [by rewrite Hxml | exact Hbin | exact Hinit].
Qed.

Lemma sorting_sidecar_blocks_recording_witness :
  let self := {| _sampling_frequency := "30000";
                 _unit_ids := Some [1; 2];
                 _spiketrains := Some [[20; 40]; [30]] |} in
  let recording := {| recording_get_dtype := "int16";
                      recording_get_channel_ids := [0; 1];
                      recording_get_sampling_frequency := "30000.0";
                      recording_sampling_frequency_float := eq_refl |} in
  let bindat := λ (_ : RecordingExtractor) (fn dt : string) (fs : filesystem),
                  <[fn +:+ ".dat" := DatFile dt]> fs in
  let fs' := written (as_sorting self) "d/rec" [20; 30; 40] [2; 1; 2; 1] ∅ in
  NeuroscopeSortingExtractor.write_sorting argsort_stable (as_sorting self)
    "d/rec" ∅ = Ok fs' ∧
  NeuroscopeRecordingExtractor.init
    (NeuroscopeRecordingExtractor.write_recording bindat recording "d/rec"
       "int16" fs') "d/rec" None
  = Raise AttributeError.
Proof.
  intros self recording bindat fs'.
  assert (NeuroscopeSortingExtractor.write_sorting argsort_stable
            (as_sorting self) "d/rec" ∅ = Ok fs') as Hw.
  { rewrite write_sorting_written. reflexivity. }
  split; [exact Hw|].
  refine (proj2 (sorting_sidecar_blocks_recording argsort_stable
                   (as_sorting self) bindat recording "d/rec" "int16" ∅ fs'
                   None eq_refl eq_refl Hw _)).
  intros dt fs0. by apply lookup_insert_ne.
Defined.

(** ** Opening a folder *)

Lemma init_pair_named (era : numpy_era) (fs : filesystem) (folder : string)
    (keep : bool) :
  plain_folder folder = true →
  let name := (os_path_split folder).2 in
  NeuroscopeSortingExtractor.init_pair era fs (path_in folder name ".res")
    (path_in folder name ".clu") keep
  = (sf ← read_samplingrate fs (path_in folder name ".xml");
     res ← np_loadtxt fs (path_in folder name ".res");
     clu ← np_loadtxt fs (path_in folder name ".clu");
     read_pair era keep sf res clu).
Proof.
  intros Hplain name. unfold NeuroscopeSortingExtractor.init_pair, name.
  rewrite path_in_split by done. done.
Qed.

Lemma named_file_any (fs : filesystem) (folder kind : string) :
  kind ≠ "" →
  String.length kind = 3%nat →
  is_Some (fs !! path_in folder (os_path_split folder).2 ("." +:+ kind)) →
  has_slash kind = false →
  existsb (λ x, bool_decide (py_slice_from x (-3) = kind))
          (onlyfiles fs folder) = true.
Proof.
  intros Hne Hlen Hfile Hkind.
  eapply (existsb_elem_of _ _ ((os_path_split folder).2 +:+ "." +:+ kind)).
  - apply elem_of_onlyfiles; [exact Hfile|].
    by rewrite !has_slash_app, os_path_split_tail, Hkind.
  - apply bool_decide_eq_true_2. rewrite <- append_assoc.
    replace (-3) with (- Z.of_nat (String.length kind)) by lia.
    by apply py_slice_from_suffix.
Qed.

(** X18: given a plain folder alone, the constructor returns an extractor
    exactly when the folder holds a readable sidecar and the two files
    NAME.res and NAME.clu named after it, and the extractor is then the one
    read from that pair.  It never returns an extractor without units for a
    folder that holds no res or clu file, and files ending in res or clu
    under another name do not stand in for the named pair. *)
Theorem init_folder_named_pair (era : numpy_era) (fs : filesystem)
    (folder : string) (keep : bool) (self : t) :
  plain_folder folder = true →
  let name := (os_path_split folder).2 in
  NeuroscopeSortingExtractor.init era fs None None (Some folder) keep = Ok self
  ↔ ∃ sf res clu,
      read_samplingrate fs (path_in folder name ".xml") = Ok sf ∧
      fs !! path_in folder name ".res" = Some (TextInts res) ∧
      fs !! path_in folder name ".clu" = Some (TextInts clu) ∧
      read_pair era keep sf res clu = Ok self.
Proof.
  intros Hplain name. unfold NeuroscopeSortingExtractor.init. fold name.
  pose proof (init_pair_named era fs folder keep Hplain) as Hpair.
  cbv zeta in Hpair. fold name in Hpair. rewrite Hpair. clear Hpair.
  split.
  - destruct (read_samplingrate fs _) as [sf|]; [|done]. rewrite !bind_Ok.
    destruct (existsb _ _), (existsb _ _); simpl; try done.
    unfold np_loadtxt.
    destruct (fs !! path_in folder name ".res") as [[res| |]|]; try done.
    rewrite bind_Ok.
    destruct (fs !! path_in folder name ".clu") as [[clu| |]|]; try done.
    rewrite bind_Ok. intros Hread. by exists sf, res, clu.
  - intros (sf & res & clu & Hsf & Hres & Hclu & Hread).
    rewrite Hsf, !bind_Ok.
    assert (existsb (λ x, bool_decide (py_slice_from x (-3) = "res"))
              (onlyfiles fs folder) = true) as ->.
    { apply named_file_any; [done|done| |done].
      change ("." +:+ "res") with ".res". fold name. by rewrite Hres. }
    assert (existsb (λ x, bool_decide (py_slice_from x (-3) = "clu"))
              (onlyfiles fs folder) = true) as ->.
    { apply named_file_any; [done|done| |done].
      change ("." +:+ "clu") with ".clu". fold name. by rewrite Hclu. }
    simpl. unfold np_loadtxt. by rewrite Hres, Hclu, !bind_Ok.
Qed.

Lemma init_folder_named_pair_witness :
  NeuroscopeSortingExtractor.init Legacy
    {[ "d/rec/rec.xml" := XmlDoc [("samplingrate", "30000")];
       "d/rec/rec.res" := TextInts [10; 20; 30];
       "d/rec/rec.clu" := TextInts [2; 1; 2; 1] ]}
    None None (Some "d/rec") true
  = Ok {| _sampling_frequency := "30000";
          _unit_ids := Some [1; 2];
          _spiketrains := Some [[10; 30]; [20]] |}.
Proof.
  apply (init_folder_named_pair Legacy _ "d/rec" true _ eq_refl).
  exists "30000", [10; 20; 30], [2; 1; 2; 1].
  repeat split; reflexivity.
Defined.
